(** * mkcert: the Run orchestrator, the command-line front end and the
      privileged-execution gate, embedded from [main.go] and the command's
      [main] function.

    Go strings are byte strings ([string]); an [error] is its message
    ([option string], [None] for [nil]).  Functions of the standard library
    and of files of the package that are not part of the embedded sources
    are fields of the record [Platform]. *)

From Stdlib Require Import String Ascii List Bool Arith Lia.
From stdpp Require Import base list strings.
Import ListNotations.

(** ** Strings *)

(** The double quote character, for messages that contain quoted words. *)
Definition dq : string := String (ascii_of_nat 34) EmptyString.

Definition quoted (s : string) : string := dq +:+ s +:+ dq.

Definition nl : string := String (ascii_of_nat 10) EmptyString.
Definition tab : string := String (ascii_of_nat 9) EmptyString.

(** The lines of a text, each one ended by a newline. *)
Definition unlines (ls : list string) : string :=
  fold_right (fun l acc => l +:+ nl +:+ acc) EmptyString ls.

(** [s] is not the empty string. *)
Definition nonempty (s : string) : bool :=
  match s with EmptyString => false | String _ _ => true end.

(** [strings.Split(s, sep)] for a one-byte separator: the fields between the
    separators, empty fields included. *)
Fixpoint split_on (sep : ascii) (s : string) : list string :=
  match s with
  | EmptyString => [EmptyString]
  | String c rest =>
      if Ascii.eqb c sep then EmptyString :: split_on sep rest
      else match split_on sep rest with
           | [] => [String c EmptyString]
           | f :: fs => String c f :: fs
           end
  end.

(** ** Regular expressions over bytes

    Go's [regexp] matches over the runes of a UTF-8 string.  Every rune the
    hostname pattern can match is a one-byte rune, except the two runes that
    simple case folding adds to [a-z] under the [(?i)] flag: U+017F (bytes
    C5 BF, folds to [s]) and U+212A (bytes E2 84 AA, folds to [k]).  The
    pattern is therefore written over bytes, with those two runes as byte
    sequences. *)

Inductive regex : Type :=
| Empty                          (* matches nothing *)
| Eps                            (* the empty string *)
| Range (lo hi : nat)            (* one byte with lo <= code <= hi *)
| Alt (r1 r2 : regex)
| Cat (r1 r2 : regex)
| Star (r : regex).

Definition Opt (r : regex) : regex := Alt Eps r.

Fixpoint nullable (r : regex) : bool :=
  match r with
  | Empty => false
  | Eps => true
  | Range _ _ => false
  | Alt r1 r2 => nullable r1 || nullable r2
  | Cat r1 r2 => nullable r1 && nullable r2
  | Star _ => true
  end.

Definition in_range (lo hi : nat) (c : ascii) : bool :=
  Nat.leb lo (nat_of_ascii c) && Nat.leb (nat_of_ascii c) hi.

Fixpoint deriv (c : ascii) (r : regex) : regex :=
  match r with
  | Empty => Empty
  | Eps => Empty
  | Range lo hi => if in_range lo hi c then Eps else Empty
  | Alt r1 r2 => Alt (deriv c r1) (deriv c r2)
  | Cat r1 r2 =>
      if nullable r1 then Alt (Cat (deriv c r1) r2) (deriv c r2)
      else Cat (deriv c r1) r2
  | Star r1 => Cat (deriv c r1) (Star r1)
  end.

(** [MatchString] for a pattern anchored with [^] and [$]. *)
Fixpoint MatchString (r : regex) (s : string) : bool :=
  match s with
  | EmptyString => nullable r
  | String c rest => MatchString (deriv c r) rest
  end.

(** [(?i)[0-9a-z_-]]: the class with its case-folded closure. *)
Definition class_label : regex :=
  Alt (Range 48 57)                       (* 0-9 *)
 (Alt (Range 97 122)                      (* a-z *)
 (Alt (Range 65 90)                       (* A-Z, by (?i) *)
 (Alt (Range 95 95)                       (* _ *)
 (Alt (Range 45 45)                       (* - *)
 (Alt (Cat (Range 197 197) (Range 191 191))                  (* U+017F *)
      (Cat (Range 226 226) (Cat (Range 132 132) (Range 170 170)))))))). (* U+212A *)

(** [(?i)[0-9a-z._-]]. *)
Definition class_label_dot : regex := Alt (Range 46 46) class_label.

(** [[0-9a-z_-]([0-9a-z._-]*[0-9a-z_-])?], the part after the wildcard. *)
Definition body_regexp : regex :=
  Cat class_label (Opt (Cat (Star class_label_dot) class_label)).

(** [(?i)^(\*\.)?[0-9a-z_-]([0-9a-z._-]*[0-9a-z_-])?$] *)
Definition hostnameRegexp : regex :=
  Cat (Opt (Cat (Range 42 42) (Range 46 46))) body_regexp.


(** ** Events

    What a run does to the outside world, in the order it does it: lines
    written by the [log] package, text printed on the standard streams, and
    the calls that leave the embedded sources (the file system, the CA
    authority, the issuer and the trust-store backends).  A log line carries
    the trust store whose block of [install] or [uninstall] prints it. *)

Inductive Store : Type := System | NSS | Java.

Inductive Event : Type :=
| Log (st : option Store) (line : string)
| Stdout (text : string)
| Stderr (text : string)
| Ev_MkdirAll (path : string)
| Ev_loadCA
| Ev_Verify                 (* m.caCert.Verify, the system-store probe *)
| Ev_checkNSS
| Ev_checkJava
| Ev_installPlatform
| Ev_installNSS
| Ev_installJava
| Ev_uninstallNSS
| Ev_uninstallJava
| Ev_uninstallPlatform
| Ev_makeCertFromCSR
| Ev_makeCert (hosts : list string).

Definition store_of (e : Event) : option Store :=
  match e with
  | Log st _ => st
  | Ev_Verify | Ev_installPlatform | Ev_uninstallPlatform => Some System
  | Ev_checkNSS | Ev_installNSS | Ev_uninstallNSS => Some NSS
  | Ev_checkJava | Ev_installJava | Ev_uninstallJava => Some Java
  | _ => None
  end.

(** ** The configuration and the receiver of [Run] *)

Record Config : Type := {
  InstallMode : bool;
  UninstallMode : bool;
  PKCS12 : bool;
  ECDSA : bool;
  Client : bool;
  KeyFile : string;
  CertFile : string;
  P12File : string;
  CSRPath : string;
  CAROOT_field : string;          (* the field CAROOT *)
  caCert : option string;         (* nil or a loaded certificate *)
  caKey : option string;
  ignoreCheckFailure : bool
}.

Record mkcert : Type := { embedded : Config }.

Definition with_CAROOT (root : string) (c : Config) : Config :=
  {| InstallMode := InstallMode c; UninstallMode := UninstallMode c;
     PKCS12 := PKCS12 c; ECDSA := ECDSA c; Client := Client c;
     KeyFile := KeyFile c; CertFile := CertFile c; P12File := P12File c;
     CSRPath := CSRPath c; CAROOT_field := root;
     caCert := caCert c; caKey := caKey c;
     ignoreCheckFailure := ignoreCheckFailure c |}.

Definition with_ca (cert key : option string) (c : Config) : Config :=
  {| InstallMode := InstallMode c; UninstallMode := UninstallMode c;
     PKCS12 := PKCS12 c; ECDSA := ECDSA c; Client := Client c;
     KeyFile := KeyFile c; CertFile := CertFile c; P12File := P12File c;
     CSRPath := CSRPath c; CAROOT_field := CAROOT_field c;
     caCert := cert; caKey := key;
     ignoreCheckFailure := ignoreCheckFailure c |}.

Definition with_ignoreCheckFailure (b : bool) (c : Config) : Config :=
  {| InstallMode := InstallMode c; UninstallMode := UninstallMode c;
     PKCS12 := PKCS12 c; ECDSA := ECDSA c; Client := Client c;
     KeyFile := KeyFile c; CertFile := CertFile c; P12File := P12File c;
     CSRPath := CSRPath c; CAROOT_field := CAROOT_field c;
     caCert := caCert c; caKey := caKey c;
     ignoreCheckFailure := b |}.

(** ** The platform

    Everything [Run] and [main] call that is not in the embedded sources.
    The outcome of a call that touches the outside world is a function of
    the events so far. *)

Record Platform : Type := {
  Getenv : string -> string;                          (* os.Getenv *)
  GOOS : string;                                      (* runtime.GOOS *)
  Join : list string -> string;                       (* filepath.Join *)
  Quote : string -> string;                           (* the %q verb *)
  (* package variables set by the trust-store files *)
  hasNSS : bool;
  hasCertutil : bool;
  hasJava : bool;
  hasKeytool : bool;
  CertutilInstallHelp : string;
  NSSBrowsers : string;
  (* calls with an outcome *)
  MkdirAll : string -> list Event -> option string;
  loadCA : string -> list Event -> option string * option string;
  Verify : option string -> list Event -> bool;       (* err == nil *)
  checkNSS : list Event -> bool;
  checkJava : list Event -> bool;
  installPlatform : list Event -> option string;
  installNSS : list Event -> bool;
  uninstallPlatform : list Event -> option string;
  makeCert : list string -> list Event -> option string;
  (* the parsers of the subject classifier *)
  ParseIP : string -> bool;                           (* ip != nil *)
  ParseAddress : string -> option string;             (* email.Address *)
  url_Parse : string -> option (string * string);     (* Scheme, Host *)
  ToASCII : string -> string + string;                (* punycode or error *)
  (* the front end *)
  Version : string;
  ReadBuildInfo : option string                       (* Main.Version *)
}.

(** [email, err := mail.ParseAddress(name); err == nil && email.Address == name] *)
Definition is_email (P : Platform) (name : string) : bool :=
  match ParseAddress P name with
  | Some address => String.eqb address name
  | None => false
  end.

(** [uriName, err := url.Parse(name)] without error, and neither
    [uriName.Scheme] nor [uriName.Host] is empty. *)
Definition is_uri (P : Platform) (name : string) : bool :=
  match url_Parse P name with
  | Some (scheme, host) => nonempty scheme && nonempty host
  | None => false
  end.

(** ** A state monad over the receiver and the event history *)

Record State : Type := { self : mkcert; hist : list Event }.

Definition M (A : Type) : Type := State -> A * State.

Definition ret {A} (a : A) : M A := fun s => (a, s).

Definition bind {A B} (m : M A) (k : A -> M B) : M B :=
  fun s => let (a, s') := m s in k a s'.

Declare Scope run_scope.
Delimit Scope run_scope with run.
Notation "x <- m ;; k" := (bind m (fun x => k))
  (at level 100, m at next level, right associativity) : run_scope.
Notation "m ;; k" := (bind m (fun _ => k))
  (at level 100, right associativity) : run_scope.
Local Open Scope run_scope.

Definition emit (e : Event) : M unit :=
  fun s => (tt, {| self := self s; hist := hist s ++ [e] |}).

(** An external call: its outcome is decided on the history before the
    call, and the call is recorded. *)
Definition call {A} (outcome : list Event -> A) (e : Event) : M A :=
  fun s => (outcome (hist s), {| self := self s; hist := hist s ++ [e] |}).

Definition get : M Config := fun s => (embedded (self s), s).

Definition modify (f : Config -> Config) : M unit :=
  fun s => (tt, {| self := {| embedded := f (embedded (self s)) |};
                   hist := hist s |}).

Definition log (st : option Store) (line : string) : M unit :=
  emit (Log st line).

(** ** [main.go] *)

Section Orchestrator.

Variable P : Platform.

Definition storeEnabled (name : string) : bool :=
  let stores := Getenv P "TRUST_STORES" in
  if negb (nonempty stores) then true
  else existsb (fun store => String.eqb store name) (split_on "," stores).

Definition fatalIfErr (err msg : string) : string :=
  "ERROR: " +:+ msg +:+ ": " +:+ err.

Definition fatalIfCmdErr (err cmd out : string) : string :=
  "ERROR: failed to execute " +:+ dq +:+ cmd +:+ dq +:+ ": " +:+ err
    +:+ nl +:+ nl +:+ out +:+ nl.

Definition CAROOT : string :=
  let env := Getenv P "CAROOT" in
  if nonempty env then env
  else
    let dir : option string :=
      if String.eqb (GOOS P) "windows" then Some (Getenv P "LocalAppData")
      else if nonempty (Getenv P "XDG_DATA_HOME")
           then Some (Getenv P "XDG_DATA_HOME")
      else if String.eqb (GOOS P) "darwin" then
        let dir := Getenv P "HOME" in
        if negb (nonempty dir) then None
        else Some (Join P [dir; "Library"; "Application Support"])
      else
        let dir := Getenv P "HOME" in
        if negb (nonempty dir) then None
        else Some (Join P [dir; ".local"; "share"]) in
    match dir with
    | None => EmptyString
    | Some dir => Join P [dir; "mkcert"]
    end.

Definition checkPlatform : M bool :=
  c <- get ;;
  if ignoreCheckFailure c then ret true
  else call (Verify P (caCert c)) Ev_Verify.

(** The three blocks of [install]; the system block returns the error that
    makes [install] return early. *)
Definition install_system : M (option string) :=
  if storeEnabled "system" then
    trusted <- checkPlatform ;;
    if trusted then
      log (Some System)
        "The local CA is already installed in the system trust store! 👍" ;;
      ret None
    else
      err <- call (installPlatform P) Ev_installPlatform ;;
      match err with
      | Some e => ret (Some e)
      | None =>
          log (Some System)
            "The local CA is now installed in the system trust store! ⚡️" ;;
          modify (with_ignoreCheckFailure true) ;;
          ret None
      end
  else ret None.

Definition install_nss : M unit :=
  if storeEnabled "nss" && hasNSS P then
    found <- call (checkNSS P) Ev_checkNSS ;;
    if found then
      log (Some NSS) ("The local CA is already installed in the "
                        +:+ NSSBrowsers P +:+ " trust store! 👍")
    else
      done <- (if hasCertutil P then call (installNSS P) Ev_installNSS
               else ret false) ;;
      if done then
        log (Some NSS) ("The local CA is now installed in the "
                          +:+ NSSBrowsers P
                          +:+ " trust store (requires browser restart)! 🦊")
      else if negb (nonempty (CertutilInstallHelp P)) then
        log (Some NSS) ("Note: " +:+ NSSBrowsers P
                          +:+ " support is not available on your platform. ℹ️")
      else if negb (hasCertutil P) then
        log (Some NSS) ("Warning: " +:+ quoted "certutil"
              +:+ " is not available, so the CA can't be automatically installed in "
              +:+ NSSBrowsers P +:+ "! ⚠️") ;;
        log (Some NSS) ("Install " +:+ quoted "certutil" +:+ " with "
              +:+ quoted (CertutilInstallHelp P) +:+ " and re-run "
              +:+ quoted "mkcert -install" +:+ " 👈")
      else ret tt
  else ret tt.

Definition install_java : M unit :=
  if storeEnabled "java" && hasJava P then
    found <- call (checkJava P) Ev_checkJava ;;
    if found then
      log (Some Java) "The local CA is already installed in Java's trust store! 👍"
    else if hasKeytool P then
      emit Ev_installJava ;;
      log (Some Java) "The local CA is now installed in Java's trust store! ☕️"
    else
      log (Some Java) ("Warning: " +:+ quoted "keytool"
            +:+ " is not available, so the CA can't be automatically installed in Java's trust store! ⚠️")
  else ret tt.

Definition install : M (option string) :=
  err <- install_system ;;
  match err with
  | Some e => ret (Some e)
  | None =>
      install_nss ;;
      install_java ;;
      log None EmptyString ;;
      ret None
  end.

Definition uninstall_nss : M unit :=
  if storeEnabled "nss" && hasNSS P then
    if hasCertutil P then emit Ev_uninstallNSS
    else if nonempty (CertutilInstallHelp P) then
      log (Some NSS) EmptyString ;;
      log (Some NSS) ("Warning: " +:+ quoted "certutil"
            +:+ " is not available, so the CA can't be automatically uninstalled from "
            +:+ NSSBrowsers P +:+ " (if it was ever installed)! ⚠️") ;;
      log (Some NSS) ("You can install " +:+ quoted "certutil" +:+ " with "
            +:+ quoted (CertutilInstallHelp P) +:+ " and re-run "
            +:+ quoted "mkcert -uninstall" +:+ " 👈") ;;
      log (Some NSS) EmptyString
    else ret tt
  else ret tt.

Definition uninstall_java : M unit :=
  if storeEnabled "java" && hasJava P then
    if hasKeytool P then emit Ev_uninstallJava
    else
      log (Some Java) EmptyString ;;
      log (Some Java) ("Warning: " +:+ quoted "keytool"
            +:+ " is not available, so the CA can't be automatically uninstalled from Java's trust store (if it was ever installed)! ⚠️") ;;
      log (Some Java) EmptyString
  else ret tt.

Definition uninstall_system : M (option string) :=
  if storeEnabled "system" then
    err <- call (uninstallPlatform P) Ev_uninstallPlatform ;;
    match err with
    | Some e => ret (Some e)
    | None =>
        log (Some System)
          "The local CA is now uninstalled from the system trust store(s)! 👋" ;;
        log (Some System) EmptyString ;;
        ret None
    end
  else if storeEnabled "nss" && hasCertutil P then
    log (Some NSS) ("The local CA is now uninstalled from the "
                      +:+ NSSBrowsers P +:+ " trust store(s)! 👋") ;;
    log (Some NSS) EmptyString ;;
    ret None
  else ret None.

Definition uninstall : M (option string) :=
  uninstall_nss ;;
  uninstall_java ;;
  uninstall_system.

(** The trust checks of the default mode, with their notes. *)
Definition check_stores : M unit :=
  w1 <- (if storeEnabled "system" then
           trusted <- checkPlatform ;;
           if negb trusted then
             log (Some System)
               "Note: the local CA is not installed in the system trust store." ;;
             ret true
           else ret false
         else ret false) ;;
  w2 <- (if storeEnabled "nss" && hasNSS P
            && nonempty (CertutilInstallHelp P) then
           found <- call (checkNSS P) Ev_checkNSS ;;
           if negb found then
             log (Some NSS) ("Note: the local CA is not installed in the "
                               +:+ NSSBrowsers P +:+ " trust store.") ;;
             ret true
           else ret false
         else ret false) ;;
  w3 <- (if storeEnabled "java" && hasJava P then
           found <- call (checkJava P) Ev_checkJava ;;
           if negb found then
             log (Some Java)
               "Note: the local CA is not installed in the Java trust store." ;;
             ret true
           else ret false
         else ret false) ;;
  if w1 || w2 || w3 then
    log None ("Run " +:+ quoted "mkcert -install"
                +:+ " for certificates to be trusted automatically ⚠️")
  else ret tt.

(** One iteration of the loop over [args]: the body for [args[i] = name].
    The result is the slice after the iteration and the error the loop
    returns with, if any. *)
Definition check_name (i : nat) (name : string) (args : list string)
  : list string * option string :=
  if ParseIP P name then (args, None)
  else if is_email P name then (args, None)
  else if is_uri P name then (args, None)
  else
    match ToASCII P name with
    | inr err =>
        (args, Some ("ERROR: " +:+ Quote P name
                       +:+ " is not a valid hostname, IP, URL or email: "
                       +:+ err))
    | inl punycode =>
        let args := <[i := punycode]> args in
        if negb (MatchString hostnameRegexp punycode) then
          (args, Some ("ERROR: " +:+ Quote P name
                         +:+ " is not a valid hostname, IP, URL or email"))
        else (args, None)
    end.

(** [for i, name := range args]: [n] iterations are left, the next index is
    [i]. *)
Fixpoint range_args (n i : nat) (args : list string)
  : list string * option string :=
  match n with
  | 0 => (args, None)
  | S n' =>
      match args !! i with
      | None => (args, None)
      | Some name =>
          match check_name i name args with
          | (args', Some e) => (args', Some e)
          | (args', None) => range_args n' (S i) args'
          end
      end
  end.

Definition check_args (args : list string) : list string * option string :=
  range_args (length args) 0 args.

(** What the [switch] of [Run] leaves to do. *)
Inductive Next : Type := Return | Proceed.

(** [(m *mkcert) Run]: the slice [args] after the call, and the error. *)
Definition Run (args : list string) : M (list string * option string) :=
  modify (with_CAROOT CAROOT) ;;
  c <- get ;;
  if negb (nonempty (CAROOT_field c)) then
    ret (args, Some "ERROR: failed to find the default CA location, set one as the CAROOT env var")
  else
    err <- call (MkdirAll P (CAROOT_field c)) (Ev_MkdirAll (CAROOT_field c)) ;;
    match err with
    | Some e => ret (args, Some (fatalIfErr e "failed to create the CAROOT"))
    | None =>
        ca <- call (loadCA P (CAROOT_field c)) Ev_loadCA ;;
        modify (with_ca (fst ca) (snd ca)) ;;
        c <- get ;;
        next <- (if InstallMode c then
                   install ;;
                   ret (if Nat.eqb (length args) 0 then Return else Proceed)
                 else if UninstallMode c then
                   uninstall ;;
                   ret Return
                 else
                   check_stores ;;
                   ret Proceed) ;;
        match next with
        | Return => ret (args, None)
        | Proceed =>
            c <- get ;;
            if nonempty (CSRPath c) then
              emit Ev_makeCertFromCSR ;;
              ret (args, None)
            else
              match check_args args with
              | (args', Some e) => ret (args', Some e)
              | (args', None) =>
                  err <- call (makeCert P args') (Ev_makeCert args') ;;
                  ret (args', err)
              end
        end
    end.

(** [(c Config) Run]: the receiver is a copy of the caller's value, the
    pointer receiver of [Run] is a fresh [mkcert] around that copy.  The
    result also shows the [mkcert] the call leaves behind, which no one
    holds after the call. *)
Definition Config_Run (c : Config) (args : list string) (h : list Event)
  : (list string * option string) * State :=
  Run args {| self := {| embedded := c |}; hist := h |}.

End Orchestrator.

(** ** The command's [main] *)

Definition shortUsage : string :=
  unlines
    [ "Usage of mkcert:";
      EmptyString;
      tab +:+ "$ mkcert -install";
      tab +:+ "Install the local CA in the system trust store.";
      EmptyString;
      tab +:+ "$ mkcert example.org";
      tab +:+ "Generate " +:+ dq +:+ "example.org.pem" +:+ dq +:+ " and " +:+ dq +:+ "example.org-key.pem" +:+ dq +:+ ".";
      EmptyString;
      tab +:+ "$ mkcert example.com myapp.dev localhost 127.0.0.1 ::1";
      tab +:+ "Generate " +:+ dq +:+ "example.com+4.pem" +:+ dq +:+ " and " +:+ dq +:+ "example.com+4-key.pem" +:+ dq +:+ ".";
      EmptyString;
      tab +:+ "$ mkcert " +:+ dq +:+ "*.example.it" +:+ dq;
      tab +:+ "Generate " +:+ dq +:+ "_wildcard.example.it.pem" +:+ dq +:+ " and " +:+ dq +:+ "_wildcard.example.it-key.pem" +:+ dq +:+ ".";
      EmptyString;
      tab +:+ "$ mkcert -uninstall";
      tab +:+ "Uninstall the local CA (but do not delete it).";
      EmptyString ].

Definition advancedUsage : string :=
  unlines
    [ "Advanced options:";
      EmptyString;
      tab +:+ "-cert-file FILE, -key-file FILE, -p12-file FILE";
      tab +:+ "    Customize the output paths.";
      EmptyString;
      tab +:+ "-client";
      tab +:+ "    Generate a certificate for client authentication.";
      EmptyString;
      tab +:+ "-ecdsa";
      tab +:+ "    Generate a certificate with an ECDSA key.";
      EmptyString;
      tab +:+ "-pkcs12";
      tab +:+ "    Generate a " +:+ dq +:+ ".p12" +:+ dq +:+ " PKCS #12 file, also know as a " +:+ dq +:+ ".pfx" +:+ dq +:+ " file,";
      tab +:+ "    containing certificate and key for legacy applications.";
      EmptyString;
      tab +:+ "-csr CSR";
      tab +:+ "    Generate a certificate based on the supplied CSR. Conflicts with";
      tab +:+ "    all other flags and arguments except -install and -cert-file.";
      EmptyString;
      tab +:+ "-CAROOT";
      tab +:+ "    Print the CA certificate and key storage location.";
      EmptyString;
      tab +:+ "$CAROOT (environment variable)";
      tab +:+ "    Set the CA certificate and key storage location. (This allows";
      tab +:+ "    maintaining multiple local CAs in parallel.)";
      EmptyString;
      tab +:+ "$TRUST_STORES (environment variable)";
      tab +:+ "    A comma-separated list of trust stores to install the local";
      tab +:+ "    root CA into. Options are: " +:+ dq +:+ "system" +:+ dq +:+ ", " +:+ dq +:+ "java" +:+ dq +:+ " and " +:+ dq +:+ "nss" +:+ dq +:+ " (includes";
      tab +:+ "    Firefox). Autodetected by default.";
      EmptyString ].

(** The flags after [flag.Parse]; the positional arguments ([flag.Args])
    are passed next to them. *)
Record Flags : Type := {
  installFlag : bool;
  uninstallFlag : bool;
  pkcs12Flag : bool;
  ecdsaFlag : bool;
  clientFlag : bool;
  helpFlag : bool;
  carootFlag : bool;
  csrFlag : string;
  certFileFlag : string;
  keyFileFlag : string;
  p12FileFlag : string;
  versionFlag : bool
}.

(** [flag.Usage], as [main] sets it: both writes go to the flag package's
    output, the standard error. *)
Definition Usage : list Event :=
  [ Stderr shortUsage;
    Stderr ("For more options, run " +:+ quoted "mkcert -help" +:+ "." +:+ nl) ].

(** [log.Fatalln] and [log.Fatal]: the line, then exit status 1. *)
Definition Fatal (line : string) : list Event * nat := ([Log None line], 1).

(** [main]: the events of the process and its exit status. *)
Definition main (P : Platform) (f : Flags) (args : list string)
  : list Event * nat :=
  if helpFlag f then
    ([Stdout shortUsage; Stdout advancedUsage], 0)
  else if versionFlag f then
    if nonempty (Version P) then ([Stdout (Version P +:+ nl)], 0)
    else match ReadBuildInfo P with
         | Some v => ([Stdout (v +:+ nl)], 0)
         | None => ([Stdout ("(unknown)" +:+ nl)], 0)
         end
  else if carootFlag f then
    if installFlag f || uninstallFlag f then
      Fatal "ERROR: you can't set -[un]install and -CAROOT at the same time"
    else ([Stdout (CAROOT P +:+ nl)], 0)
  else if installFlag f && uninstallFlag f then
    Fatal "ERROR: you can't set -install and -uninstall at the same time"
  else if nonempty (csrFlag f)
          && (pkcs12Flag f || ecdsaFlag f || clientFlag f) then
    Fatal "ERROR: can only combine -csr with -install and -cert-file"
  else if nonempty (csrFlag f) && negb (Nat.eqb (length args) 0) then
    Fatal "ERROR: can't specify extra arguments when using -csr"
  else if Nat.eqb (length args) 0 && negb (installFlag f)
          && negb (uninstallFlag f) && nonempty (csrFlag f) then
    (Usage, 0)
  else
    let cfg :=
      {| InstallMode := installFlag f;
         UninstallMode := uninstallFlag f;
         CSRPath := csrFlag f;
         PKCS12 := pkcs12Flag f;
         ECDSA := ecdsaFlag f;
         Client := clientFlag f;
         CertFile := certFileFlag f;
         KeyFile := keyFileFlag f;
         P12File := p12FileFlag f;
         CAROOT_field := EmptyString;
         caCert := None;
         caKey := None;
         ignoreCheckFailure := false |} in
    match Config_Run P cfg args [] with
    | ((_, Some err), s) => (hist s ++ [Log None err], 1)
    | ((_, None), s) => (hist s, 0)
    end.

(** ** The privileged-execution gate *)

(** [exec.Command(name, arg...)]. *)
Record Cmd : Type := { Name : string; Args : list string }.

(** What one call of the gate finds: [user.Current] (the uid, or [None]
    when it fails) and [binaryExists("sudo")]. *)
Record Privilege : Type := { Current_Uid : option string; sudo_exists : bool }.

(** The process-wide state the gate touches: the [sync.Once] of the
    warning and the log. *)
Record Process : Type := { sudoWarningOnce : bool; output : list Event }.

Definition sudoWarning : string :=
  "Warning: " +:+ quoted "sudo"
    +:+ " is not available, and mkcert is not running as root. The (un)install operation might fail. ⚠️".

(** [sudoWarningOnce.Do(f)] for the logging of [line]. *)
Definition Once_Do (line : string) (s : Process) : Process :=
  if sudoWarningOnce s then s
  else {| sudoWarningOnce := true; output := output s ++ [Log None line] |}.

(** [exec.Command(cmd[0], cmd[1:]...)]; [None] is the panic of an index
    out of range. *)
Definition Command_of (cmd : list string) : option Cmd :=
  match cmd with
  | [] => None
  | name :: rest => Some {| Name := name; Args := rest |}
  end.

(** [user.Current()] succeeds and the [Uid] of the user is [0]. *)
Definition is_root (pv : Privilege) : bool :=
  match Current_Uid pv with
  | Some uid => String.eqb uid "0"
  | None => false
  end.

Definition commandWithSudo (pv : Privilege) (cmd : list string) (s : Process)
  : option Cmd * Process :=
  if is_root pv then (Command_of cmd, s)
  else if negb (sudo_exists pv) then
    let s := Once_Do sudoWarning s in
    (Command_of cmd, s)
  else
    (Some {| Name := "sudo";
             Args := ["--prompt=Sudo password:"; "--"] ++ cmd |}, s).

(** The calls of the gate during the life of a process, each with what it
    finds at the time. *)
Fixpoint gate_calls (calls : list (Privilege * list string)) (s : Process)
  : list (option Cmd) * Process :=
  match calls with
  | [] => ([], s)
  | (pv, cmd) :: rest =>
      let (c, s1) := commandWithSudo pv cmd s in
      let (cs, s2) := gate_calls rest s1 in
      (c :: cs, s2)
  end.

Definition is_sudoWarning (e : Event) : bool :=
  match e with
  | Log _ line => String.eqb line sudoWarning
  | _ => false
  end.

(** How many times the warning is in the log. *)
Definition warnings (s : Process) : nat :=
  length (List.filter is_sudoWarning (output s)).

(** ** The language of a pattern, and the hostname grammar *)

(** The strings a pattern denotes. *)
Inductive lang : regex -> string -> Prop :=
| lang_Eps : lang Eps EmptyString
| lang_Range lo hi c :
    in_range lo hi c = true -> lang (Range lo hi) (String c EmptyString)
| lang_Alt_l r1 r2 s : lang r1 s -> lang (Alt r1 r2) s
| lang_Alt_r r1 r2 s : lang r2 s -> lang (Alt r1 r2) s
| lang_Cat r1 r2 s1 s2 :
    lang r1 s1 -> lang r2 s2 -> lang (Cat r1 r2) (s1 +:+ s2)
| lang_Star_nil r : lang (Star r) EmptyString
| lang_Star_cons r s1 s2 :
    lang r s1 -> lang (Star r) s2 -> lang (Star r) (s1 +:+ s2).

Fixpoint forall_bytes (p : ascii -> bool) (s : string) : bool :=
  match s with
  | EmptyString => true
  | String c rest => p c && forall_bytes p rest
  end.

(** The output of a conversion to ASCII: every byte is below 128. *)
Definition is_ascii (s : string) : bool := forall_bytes (in_range 0 127) s.

(** A letter of either case, a digit, a hyphen or an underscore. *)
Definition label_byte (c : ascii) : bool :=
  in_range 48 57 c || in_range 97 122 c || in_range 65 90 c
  || in_range 95 95 c || in_range 45 45 c.

Definition dot_byte (c : ascii) : bool := in_range 46 46 c.

Definition label_or_dot (c : ascii) : bool := dot_byte c || label_byte c.

(** The text after one leading wildcard label, if there is one. *)
Definition strip_wildcard (s : string) : string :=
  match s with
  | String c1 (String c2 rest) =>
      if in_range 42 42 c1 && dot_byte c2 then rest else s
  | _ => s
  end.

Definition first_byte (s : string) : option ascii :=
  match s with EmptyString => None | String c _ => Some c end.

Fixpoint last_byte (s : string) : option ascii :=
  match s with
  | EmptyString => None
  | String c EmptyString => Some c
  | String _ rest => last_byte rest
  end.

Definition is_label_byte (o : option ascii) : bool :=
  match o with Some c => label_byte c | None => false end.

(** What the pattern accepts among ASCII strings, read off the pattern: after
    the optional wildcard label, a non-empty run of label bytes and dots that
    neither starts nor ends with a dot. *)
Definition body_shape (body : string) : bool :=
  forall_bytes label_or_dot body
  && is_label_byte (first_byte body) && is_label_byte (last_byte body).

Definition hostname_shape (s : string) : bool := body_shape (strip_wildcard s).

(** The grammar in the specification's words: one optional leading wildcard
    label, then labels of letters, digits, hyphens and underscores, separated
    by dots. *)
Definition spec_label (l : string) : bool :=
  nonempty l && forall_bytes label_byte l.

Definition spec_hostname (s : string) : bool :=
  forallb spec_label (split_on "." (strip_wildcard s)).

(** ** The classified subject, in the specification's words *)

Inductive Subject : Type :=
| IPAddress
| EmailAddress
| URI
| DNSName (name : string).

Definition spec_classify (P : Platform) (name : string) : Subject + string :=
  if ParseIP P name then inl IPAddress
  else if is_email P name then inl EmailAddress
  else if is_uri P name then inl URI
  else match ToASCII P name with
       | inr err =>
           inr ("ERROR: " +:+ Quote P name
                  +:+ " is not a valid hostname, IP, URL or email: " +:+ err)
       | inl punycode =>
           if MatchString hostnameRegexp punycode then inl (DNSName punycode)
           else inr ("ERROR: " +:+ Quote P name
                       +:+ " is not a valid hostname, IP, URL or email")
       end.

Definition valid_subject (P : Platform) (name : string) : Prop :=
  exists sub, spec_classify P name = inl sub.

(** The value callers see for a valid subject. *)
Definition normalized (P : Platform) (name : string) : string :=
  match spec_classify P name with
  | inl (DNSName punycode) => punycode
  | _ => name
  end.

(** ** Events by kind, and their order *)

Fixpoint tags (tr : list Event) : list Store :=
  match tr with
  | [] => []
  | e :: rest =>
      match store_of e with
      | Some st => st :: tags rest
      | None => tags rest
      end
  end.

Fixpoint nondecreasing (l : list nat) : bool :=
  match l with
  | a :: (b :: _) as rest => Nat.leb a b && nondecreasing rest
  | _ => true
  end.

Definition system_nss_java (st : Store) : nat :=
  match st with System => 0 | NSS => 1 | Java => 2 end.

Definition nss_java_system (st : Store) : nat :=
  match st with NSS => 0 | Java => 1 | System => 2 end.

(** The events that belong to a store come in the order of [rank]. *)
Definition in_order (rank : Store -> nat) (tr : list Event) : bool :=
  nondecreasing (map rank (tags tr)).

(** A probe of a trust store. *)
Definition is_probe (e : Event) : bool :=
  match e with
  | Ev_Verify | Ev_checkNSS | Ev_checkJava => true
  | _ => false
  end.

(** A call of the issuer. *)
Definition is_issue (e : Event) : bool :=
  match e with
  | Ev_makeCertFromCSR | Ev_makeCert _ => true
  | _ => false
  end.

(** Output only: nothing that touches the file system or a trust store. *)
Definition is_output (e : Event) : bool :=
  match e with
  | Log _ _ | Stdout _ | Stderr _ => true
  | _ => false
  end.

(** What Uninstall mode may do: create the CAROOT directory, load the CA,
    detach trust, and log. *)
Definition is_uninstall_step (e : Event) : bool :=
  match e with
  | Ev_MkdirAll _ | Ev_loadCA | Log _ _
  | Ev_uninstallNSS | Ev_uninstallJava | Ev_uninstallPlatform => true
  | _ => false
  end.

(** The combinations of options the front end refuses. *)
Definition conflicting (f : Flags) (args : list string) : bool :=
  installFlag f && uninstallFlag f
  || nonempty (csrFlag f) && (pkcs12Flag f || ecdsaFlag f || clientFlag f)
  || nonempty (csrFlag f) && negb (Nat.eqb (length args) 0).

(** What the gate returns, from what the call finds alone. *)
Definition gate_result (call : Privilege * list string) : option Cmd :=
  let (pv, cmd) := call in
  if is_root pv then Command_of cmd
  else if sudo_exists pv
       then Some {| Name := "sudo";
                    Args := "--prompt=Sudo password:" :: "--" :: cmd |}
       else Command_of cmd.

(** The call finds neither the superuser nor [sudo]. *)
Definition unprivileged (call : Privilege * list string) : bool :=
  negb (is_root (fst call)) && negb (sudo_exists (fst call)).

Definition fresh_process : Process :=
  {| sudoWarningOnce := false; output := [] |}.

(** ** A platform for the examples

    Linux, [CAROOT] set, every trust store enabled and its tool present, a CA
    that no store trusts yet, and calls that succeed. *)

Definition demo_Getenv (name : string) : string :=
  if String.eqb name "CAROOT" then "/home/dev/ca" else EmptyString.

Definition demo_Join (parts : list string) : string :=
  match parts with
  | [] => EmptyString
  | p :: rest => fold_left (fun acc q => acc +:+ "/" +:+ q) rest p
  end.

Definition demo_ToASCII (s : string) : string + string :=
  if String.eqb s "bücher.example" then inl "xn--bcher-kva.example"
  else if String.eqb s "a b" then inr "idna: disallowed rune U+0020"
  else inl s.

Definition demo : Platform :=
  {| Getenv := demo_Getenv;
     GOOS := "linux";
     Join := demo_Join;
     Quote := quoted;
     hasNSS := true;
     hasCertutil := true;
     hasJava := true;
     hasKeytool := true;
     CertutilInstallHelp := "apt install libnss3-tools";
     NSSBrowsers := "Firefox and/or Chrome/Chromium";
     MkdirAll := fun _ _ => None;
     loadCA := fun _ _ => (Some "rootCA.pem", Some "rootCA-key.pem");
     Verify := fun _ _ => false;
     checkNSS := fun _ => false;
     checkJava := fun _ => false;
     installPlatform := fun _ => None;
     installNSS := fun _ => true;
     uninstallPlatform := fun _ => None;
     makeCert := fun _ _ => None;
     ParseIP := fun s => String.eqb s "127.0.0.1";
     ParseAddress :=
       fun s => if String.eqb s "dev@example.org" then Some s else None;
     url_Parse :=
       fun s => if String.eqb s "https://example.org/x"
                then Some ("https", "example.org") else None;
     ToASCII := demo_ToASCII;
     Version := EmptyString;
     ReadBuildInfo := None |}.

(** A configuration as a caller outside the package builds it. *)
Definition config (install uninstall : bool) (csr : string) : Config :=
  {| InstallMode := install; UninstallMode := uninstall;
     PKCS12 := false; ECDSA := false; Client := false;
     KeyFile := EmptyString; CertFile := EmptyString; P12File := EmptyString;
     CSRPath := csr; CAROOT_field := EmptyString;
     caCert := None; caKey := None; ignoreCheckFailure := false |}.

Definition flags (install uninstall help caroot : bool) (csr : string) : Flags :=
  {| installFlag := install; uninstallFlag := uninstall;
     pkcs12Flag := false; ecdsaFlag := false; clientFlag := false;
     helpFlag := help; carootFlag := caroot; csrFlag := csr;
     certFileFlag := EmptyString; keyFileFlag := EmptyString;
     p12FileFlag := EmptyString; versionFlag := false |}.

Definition start (c : Config) : State :=
  {| self := {| embedded := c |}; hist := [] |}.

(** ** The events of one call *)

(** The events after the history [h]. *)
Definition events_since (h : list Event) (s : State) : list Event :=
  drop (length h) (hist s).

Definition events_of {A} (m : M A) (s : State) : list Event :=
  events_since (hist s) (snd (m s)).

(** The methods of the receiver, for what can follow in a run. *)
Inductive Method : Type :=
| Call_checkPlatform
| Call_install
| Call_uninstall
| Call_check_stores
| Call_Run (args : list string).

Definition invoke (P : Platform) (m : Method) : M unit :=
  match m with
  | Call_checkPlatform => bind (checkPlatform P) (fun _ => ret tt)
  | Call_install => bind (install P) (fun _ => ret tt)
  | Call_uninstall => bind (uninstall P) (fun _ => ret tt)
  | Call_check_stores => check_stores P
  | Call_Run args => bind (Run P args) (fun _ => ret tt)
  end.

Fixpoint invoke_all (P : Platform) (ms : list Method) : M unit :=
  match ms with
  | [] => ret tt
  | m :: rest => bind (invoke P m) (fun _ => invoke_all P rest)
  end.

Definition is_Verify (e : Event) : bool :=
  match e with Ev_Verify => true | _ => false end.

Definition flag (s : State) : bool := ignoreCheckFailure (embedded (self s)).

(** Text on the standard error: the usage message of the front end. *)
Definition is_Stderr (e : Event) : bool :=
  match e with Stderr _ => true | _ => false end.

(** The [sync.Once] is done exactly when the warning is in the log once. *)
Definition once_invariant (s : Process) : Prop :=
  warnings s = if sudoWarningOnce s then 1 else 0.

(** What the entry on which the classification fails holds afterwards: its
    ASCII form when the conversion succeeded, else the argument itself. *)
Definition attempted (P : Platform) (name : string) : string :=
  match ToASCII P name with
  | inl punycode => punycode
  | inr _ => name
  end.

Definition is_makeCert (e : Event) : bool :=
  match e with Ev_makeCert _ => true | _ => false end.

(** ** Helpers for the further properties *)

(** [strings.Join(fields, sep)] for a one-byte separator. *)
Fixpoint join_with (sep : ascii) (fields : list string) : string :=
  match fields with
  | [] => EmptyString
  | [f] => f
  | f :: rest => f +:+ String sep (join_with sep rest)
  end.

(** No byte of [s] is the separator. *)
Definition free_of (sep : ascii) (s : string) : bool :=
  forall_bytes (fun c => negb (Ascii.eqb c sep)) s.

(** A change of a trust store. *)
Definition is_install (e : Event) : bool :=
  match e with
  | Ev_installPlatform | Ev_installNSS | Ev_installJava => true
  | _ => false
  end.

Definition is_uninstall (e : Event) : bool :=
  match e with
  | Ev_uninstallPlatform | Ev_uninstallNSS | Ev_uninstallJava => true
  | _ => false
  end.

(** Every installation into a store comes directly after the probe of that
    store; [prev] is the event before [tr]. *)
Fixpoint probed_first (prev : option Event) (tr : list Event) : bool :=
  match tr with
  | [] => true
  | e :: rest =>
      match e, prev with
      | Ev_installPlatform, Some Ev_Verify => true
      | Ev_installPlatform, _ => false
      | Ev_installNSS, Some Ev_checkNSS => true
      | Ev_installNSS, _ => false
      | Ev_installJava, Some Ev_checkJava => true
      | Ev_installJava, _ => false
      | _, _ => true
      end && probed_first (Some e) rest
  end.

(** A note of the default mode about a store, and the hint that closes
    them. *)
Definition is_store_line (e : Event) : bool :=
  match e with Log (Some _) _ => true | _ => false end.

Definition is_plain_line (e : Event) : bool :=
  match e with Log None _ => true | _ => false end.

(** ASCII lower case of a byte and of a string. *)
Definition to_lower_byte (c : ascii) : ascii :=
  if in_range 65 90 c then ascii_of_nat (nat_of_ascii c + 32) else c.

Fixpoint to_lower (s : string) : string :=
  match s with
  | EmptyString => EmptyString
  | String c rest => String (to_lower_byte c) (to_lower rest)
  end.

(** ** Further platforms for the examples *)

(** [demo] with another environment, and with the outcomes of the calls
    given: the creation of the directory, every probe of a trust store, the
    installation into and the removal from the system store. *)
Definition scenario (env : string -> string) (mkdir : option string)
    (trusted : bool) (install_err uninstall_err : option string) : Platform :=
  {| Getenv := env;
     GOOS := GOOS demo;
     Join := Join demo;
     Quote := Quote demo;
     hasNSS := hasNSS demo;
     hasCertutil := hasCertutil demo;
     hasJava := hasJava demo;
     hasKeytool := hasKeytool demo;
     CertutilInstallHelp := CertutilInstallHelp demo;
     NSSBrowsers := NSSBrowsers demo;
     MkdirAll := fun _ _ => mkdir;
     loadCA := loadCA demo;
     Verify := fun _ _ => trusted;
     checkNSS := fun _ => trusted;
     checkJava := fun _ => trusted;
     installPlatform := fun _ => install_err;
     installNSS := installNSS demo;
     uninstallPlatform := fun _ => uninstall_err;
     makeCert := makeCert demo;
     ParseIP := ParseIP demo;
     ParseAddress := ParseAddress demo;
     url_Parse := url_Parse demo;
     ToASCII := ToASCII demo;
     Version := Version demo;
     ReadBuildInfo := ReadBuildInfo demo |}.

(** The environment with [TRUST_STORES] set, next to [CAROOT]. *)
Definition env_stores (stores : string) (name : string) : string :=
  if String.eqb name "TRUST_STORES" then stores else demo_Getenv name.

(** What the loop may leave in the place of the argument [x]. *)
Definition kept_or_converted (P : Platform) (x y : string) : Prop :=
  (y = x \/ ToASCII P x = inl y)
  /\ (ParseIP P x || is_email P x || is_uri P x = true -> y = x).

(** [Run] comes to the loop over the arguments: the CAROOT directory is
    found and created, there is no CSR, and the mode goes on to the
    arguments (the default mode, or Install mode with arguments). *)
Definition reaches_loop (P : Platform) (c : Config) (args : list string)
    (h : list Event) : Prop :=
  nonempty (CAROOT P) = true
  /\ MkdirAll P (CAROOT P) h = None
  /\ nonempty (CSRPath c) = false
  /\ (if InstallMode c then negb (Nat.eqb (length args) 0)
      else negb (UninstallMode c)) = true.

(** ** Memory: the caller's configuration and the receiver of [Run] *)

(** What an address holds: a [Config] variable of a caller, or a [mkcert]
    made by [Config.Run]. *)
Inductive Object : Type :=
| Obj_Config (c : Config)
| Obj_mkcert (m : mkcert).

Record Machine : Type := { heap : list Object; events : list Event }.

(** [(m *mkcert) Run] on the address [p] of its receiver: the fields are
    read from the object at [p] and what [Run] assigns to them is written
    there.  [None] is a pointer to nothing or to another type. *)
Definition Run_at (P : Platform) (p : nat) (args : list string) (mc : Machine)
  : option ((list string * option string) * Machine) :=
  match heap mc !! p with
  | Some (Obj_mkcert m) =>
      let (r, s) := Run P args {| self := m; hist := events mc |} in
      Some (r, {| heap := <[p := Obj_mkcert (self s)]> (heap mc);
                  events := hist s |})
  | _ => None
  end.

(** [(c Config) Run] called on the variable at the address [a]: the
    receiver [c] is a copy of the variable, [&mkcert{Config: c}] is a new
    object around the copy, and [Run] runs on the address of that object. *)
Definition Config_Run_at (P : Platform) (a : nat) (args : list string)
    (mc : Machine) : option ((list string * option string) * Machine) :=
  match heap mc !! a with
  | Some (Obj_Config c) =>
      Run_at P (length (heap mc)) args
        {| heap := heap mc ++ [Obj_mkcert {| embedded := c |}];
           events := events mc |}
  | _ => None
  end.

(** * Theorems *)

(** ** The matcher decides the language of the pattern *)

Lemma append_nil_inv (s1 s2 : string) :
  s1 +:+ s2 = EmptyString -> s1 = EmptyString /\ s2 = EmptyString.
Proof.
  destruct s1; simpl; intros H; [split; [reflexivity | exact H] | discriminate].
Qed.

Lemma append_cons_inv (s1 s2 : string) (c : ascii) (s : string) :
  s1 +:+ s2 = String c s ->
  (s1 = EmptyString /\ s2 = String c s)
  \/ (exists s1', s1 = String c s1' /\ s = s1' +:+ s2).
Proof.
  destruct s1 as [|a s1']; simpl; intros H.
  - left; split; [reflexivity | exact H].
  - right. injection H as -> <-. exists s1'. split; reflexivity.
Qed.

Lemma nullable_lang (r : regex) : nullable r = true <-> lang r EmptyString.
Proof.
  induction r as [| | lo hi | r1 IH1 r2 IH2 | r1 IH1 r2 IH2 | r IH]; simpl.
  - split; [discriminate | intros H; inversion H].
  - split; [intros _; constructor | reflexivity].
  - split; [discriminate | intros H; inversion H].
  - rewrite orb_true_iff, IH1, IH2. split.
    + intros [H | H]; [apply lang_Alt_l | apply lang_Alt_r]; exact H.
    + intros H; inversion H; subst; [left | right]; assumption.
  - rewrite andb_true_iff, IH1, IH2. split.
    + intros [H1 H2]. change EmptyString with (EmptyString +:+ EmptyString).
      apply lang_Cat; assumption.
    + intros H; inversion H as [| | | | ? ? s1 s2 H1 H2 | |]; subst.
      match goal with
      | E : _ +:+ _ = EmptyString |- _ => apply append_nil_inv in E as [-> ->]
      end.
      split; assumption.
  - split; [intros _; constructor | reflexivity].
Qed.

Lemma lang_Star_inv (r : regex) (c : ascii) (s : string) :
  lang (Star r) (String c s) ->
  exists s1 s2, s = s1 +:+ s2 /\ lang r (String c s1) /\ lang (Star r) s2.
Proof.
  intros H. remember (Star r) as r' eqn:Er. remember (String c s) as t eqn:Et.
  revert s Et.
  induction H as [| | | | | r0 | r0 s1 s2 H1 _ H2 IH2]; try discriminate.
  injection Er as ->. intros s Et.
  apply append_cons_inv in Et as [[-> ->] | (s1' & -> & ->)].
  - apply IH2; reflexivity.
  - exists s1', s2. repeat split; assumption.
Qed.

Lemma deriv_lang (c : ascii) (r : regex) (s : string) :
  lang (deriv c r) s <-> lang r (String c s).
Proof.
  revert s.
  induction r as [| | lo hi | r1 IH1 r2 IH2 | r1 IH1 r2 IH2 | r IH];
    intros s; simpl.
  - split; intros H; inversion H.
  - split; intros H; inversion H.
  - destruct (in_range lo hi c) eqn:E; split; intros H.
    + inversion H; subst. constructor; exact E.
    + inversion H; subst. constructor.
    + inversion H.
    + inversion H; subst. congruence.
  - split; intros H; inversion H; subst.
    + apply lang_Alt_l, IH1; assumption.
    + apply lang_Alt_r, IH2; assumption.
    + apply lang_Alt_l, IH1; assumption.
    + apply lang_Alt_r, IH2; assumption.
  - assert (Hcat : forall t, lang (Cat (deriv c r1) r2) t ->
                             lang (Cat r1 r2) (String c t)).
    { intros t H. inversion H as [| | | | ? ? s1 s2 H1 H2 |  |]; subst.
      change (String c (s1 +:+ s2)) with (String c s1 +:+ s2).
      apply lang_Cat; [apply IH1|]; assumption. }
    destruct (nullable r1) eqn:N; split; intros H.
    + inversion H; subst; [apply Hcat; assumption|].
      change (String c s) with (EmptyString +:+ String c s).
      apply lang_Cat; [apply nullable_lang; exact N | apply IH2; assumption].
    + inversion H as [| | | | ? ? s1 s2 H1 H2 | |]; subst.
      match goal with
      | E : _ +:+ _ = String _ _ |- _ =>
          apply append_cons_inv in E as [[-> ->] | (s1' & -> & ->)]
      end.
      * apply lang_Alt_r, IH2; assumption.
      * apply lang_Alt_l, lang_Cat; [apply IH1|]; assumption.
    + apply Hcat; assumption.
    + inversion H as [| | | | ? ? s1 s2 H1 H2 | |]; subst.
      match goal with
      | E : _ +:+ _ = String _ _ |- _ =>
          apply append_cons_inv in E as [[-> ->] | (s1' & -> & ->)]
      end.
      * apply nullable_lang in H1. congruence.
      * apply lang_Cat; [apply IH1|]; assumption.
  - split; intros H.
    + inversion H as [| | | | ? ? s1 s2 H1 H2 |  |]; subst.
      change (String c (s1 +:+ s2)) with (String c s1 +:+ s2).
      apply lang_Star_cons; [apply IH|]; assumption.
    + apply lang_Star_inv in H as (s1 & s2 & -> & H1 & H2).
      apply lang_Cat; [apply IH|]; assumption.
Qed.

Lemma MatchString_lang (r : regex) (s : string) :
  MatchString r s = true <-> lang r s.
Proof.
  revert r. induction s as [|c s IH]; intros r; simpl.
  - apply nullable_lang.
  - rewrite IH. apply deriv_lang.
Qed.

(** ** The pattern on ASCII strings *)

Ltac ranges :=
  unfold label_or_dot, label_byte, dot_byte, in_range in *;
  repeat rewrite ?andb_true_iff, ?orb_true_iff, ?andb_false_iff,
    ?orb_false_iff, ?Nat.leb_le, ?Nat.leb_gt in *;
  lia.

Lemma forall_bytes_app (p : ascii -> bool) (s1 s2 : string) :
  forall_bytes p (s1 +:+ s2) = forall_bytes p s1 && forall_bytes p s2.
Proof.
  induction s1 as [|c s1 IH]; simpl; [reflexivity|].
  rewrite IH. apply andb_assoc.
Qed.

Lemma is_ascii_first (c : ascii) (s : string) :
  is_ascii (String c EmptyString +:+ s) = true -> in_range 0 127 c = true.
Proof. unfold is_ascii. cbn. intros H. apply andb_true_iff in H. apply H. Qed.

Lemma lang_Range_inv (lo hi : nat) (s : string) :
  lang (Range lo hi) s ->
  exists c, s = String c EmptyString /\ in_range lo hi c = true.
Proof. intros H; inversion H; subst. eexists; split; [reflexivity | assumption]. Qed.

Lemma lang_Cat_inv (r1 r2 : regex) (s : string) :
  lang (Cat r1 r2) s -> exists s1 s2, s = s1 +:+ s2 /\ lang r1 s1 /\ lang r2 s2.
Proof. intros H; inversion H; subst. eauto. Qed.

Lemma lang_Alt_inv (r1 r2 : regex) (s : string) :
  lang (Alt r1 r2) s -> lang r1 s \/ lang r2 s.
Proof. intros H; inversion H; subst; auto. Qed.

Lemma lang_class_label (s : string) :
  is_ascii s = true ->
  lang class_label s <->
  exists c, s = String c EmptyString /\ label_byte c = true.
Proof.
  intros Ha. unfold class_label. split.
  - intros H.
    repeat (apply lang_Alt_inv in H as [H | H]);
      try (apply lang_Range_inv in H as (c & -> & Hc); exists c;
           split; [reflexivity | ranges]).
    + apply lang_Cat_inv in H as (s1 & s2 & -> & H1 & _).
      apply lang_Range_inv in H1 as (c & -> & Hc).
      apply is_ascii_first in Ha. exfalso. ranges.
    + apply lang_Cat_inv in H as (s1 & s2 & -> & H1 & _).
      apply lang_Range_inv in H1 as (c & -> & Hc).
      apply is_ascii_first in Ha. exfalso. ranges.
  - intros (c & -> & Hc). unfold label_byte in Hc.
    repeat (apply orb_true_iff in Hc as [Hc | Hc]).
    + apply lang_Alt_l, lang_Range, Hc.
    + apply lang_Alt_r, lang_Alt_l, lang_Range, Hc.
    + apply lang_Alt_r, lang_Alt_r, lang_Alt_l, lang_Range, Hc.
    + apply lang_Alt_r, lang_Alt_r, lang_Alt_r, lang_Alt_l, lang_Range, Hc.
    + apply lang_Alt_r, lang_Alt_r, lang_Alt_r, lang_Alt_r, lang_Alt_l,
        lang_Range, Hc.
Qed.

Lemma lang_class_label_dot (s : string) :
  is_ascii s = true ->
  lang class_label_dot s <->
  exists c, s = String c EmptyString /\ label_or_dot c = true.
Proof.
  intros Ha. unfold class_label_dot, label_or_dot. split.
  - intros H. apply lang_Alt_inv in H as [H | H].
    + apply lang_Range_inv in H as (c & -> & Hc). exists c.
      split; [reflexivity|]. unfold dot_byte. rewrite Hc. reflexivity.
    + apply (lang_class_label _ Ha) in H as (c & -> & Hc). exists c.
      split; [reflexivity|]. rewrite Hc. apply orb_true_r.
  - intros (c & -> & Hc). apply orb_true_iff in Hc as [Hc | Hc].
    + apply lang_Alt_l, lang_Range, Hc.
    + apply lang_Alt_r, lang_class_label; [exact Ha | eauto].
Qed.

Lemma lang_Star_class (s : string) :
  is_ascii s = true ->
  lang (Star class_label_dot) s <-> forall_bytes label_or_dot s = true.
Proof.
  intros Ha. split.
  - intros H. remember (Star class_label_dot) as r eqn:Er.
    induction H as [| | | | | r0 | r0 s1 s2 H1 _ H2 IH2]; try discriminate.
    + reflexivity.
    + injection Er as ->. unfold is_ascii in Ha.
      rewrite forall_bytes_app in Ha. apply andb_true_iff in Ha as [Ha1 Ha2].
      apply (lang_class_label_dot _ Ha1) in H1 as (c & -> & Hc).
      simpl. rewrite Hc. simpl. apply IH2; [exact Ha2 | reflexivity].
  - revert Ha. unfold is_ascii.
    induction s as [|c s IH]; cbn [forall_bytes]; intros Ha H.
    + constructor.
    + apply andb_true_iff in Ha as [Hc Ha]. apply andb_true_iff in H as [Hl H].
      change (String c s) with (String c EmptyString +:+ s).
      apply lang_Star_cons; [|apply IH; assumption].
      apply lang_class_label_dot; [|eauto].
      unfold is_ascii. cbn [forall_bytes]. rewrite Hc. reflexivity.
Qed.

(** A non-empty string is its initial part followed by its last byte. *)
Lemma last_byte_split (c : ascii) (s : string) :
  exists m d, String c s = m +:+ String d EmptyString
              /\ last_byte (String c s) = Some d.
Proof.
  revert c. induction s as [|c' s IH]; intros c.
  - exists EmptyString, c. split; reflexivity.
  - destruct (IH c') as (m & d & E & L). exists (String c m), d.
    split; [rewrite E; reflexivity|].
    rewrite <- L. reflexivity.
Qed.

Lemma last_byte_app (m : string) (d : ascii) :
  last_byte (m +:+ String d EmptyString) = Some d.
Proof.
  induction m as [|c m IH]; simpl; [reflexivity|].
  rewrite IH. destruct (m +:+ String d EmptyString) eqn:E; [|reflexivity].
  destruct m; discriminate.
Qed.

Lemma append_cons (c : ascii) (s1 s2 : string) :
  String c s1 +:+ s2 = String c (s1 +:+ s2).
Proof. reflexivity. Qed.

Lemma append_nil_l (s : string) : EmptyString +:+ s = s.
Proof. reflexivity. Qed.

Lemma label_byte_or_dot (c : ascii) : label_byte c = true -> label_or_dot c = true.
Proof. intros H. unfold label_or_dot. rewrite H. apply orb_true_r. Qed.

Lemma label_byte_not_star (c : ascii) :
  label_byte c = true -> in_range 42 42 c = false.
Proof.
  intros H. destruct (in_range 42 42 c) eqn:E; [exfalso; ranges | reflexivity].
Qed.

Lemma is_ascii_app (s1 s2 : string) :
  is_ascii (s1 +:+ s2) = true -> is_ascii s1 = true /\ is_ascii s2 = true.
Proof.
  unfold is_ascii. rewrite forall_bytes_app. apply andb_true_iff.
Qed.

Lemma is_ascii_strip_wildcard (s : string) :
  is_ascii s = true -> is_ascii (strip_wildcard s) = true.
Proof.
  destruct s as [|c1 [|c2 rest]]; try (intros H; exact H).
  unfold strip_wildcard. destruct (in_range 42 42 c1 && dot_byte c2).
  - unfold is_ascii. cbn [forall_bytes]. intros H.
    apply andb_true_iff in H as [_ H]. apply andb_true_iff in H as [_ H].
    exact H.
  - intros H; exact H.
Qed.

Lemma lang_body (s : string) :
  is_ascii s = true -> lang body_regexp s <-> body_shape s = true.
Proof.
  intros Ha. unfold body_regexp, body_shape. split.
  - intros H. apply lang_Cat_inv in H as (s1 & s2 & -> & H1 & H2).
    apply is_ascii_app in Ha as [Ha1 Ha2].
    apply (lang_class_label _ Ha1) in H1 as (c & -> & Hc).
    apply lang_Alt_inv in H2 as [H2 | H2].
    + inversion H2; subst. rewrite append_cons, append_nil_l.
      cbn [forall_bytes first_byte last_byte is_label_byte].
      rewrite Hc, (label_byte_or_dot _ Hc). reflexivity.
    + apply lang_Cat_inv in H2 as (m & l & -> & Hm & Hl).
      apply is_ascii_app in Ha2 as [Ham Hal].
      apply (lang_Star_class _ Ham) in Hm.
      apply (lang_class_label _ Hal) in Hl as (d & -> & Hd).
      change (String c EmptyString +:+ m +:+ String d EmptyString)
        with (String c m +:+ String d EmptyString).
      rewrite last_byte_app, forall_bytes_app.
      cbn [forall_bytes first_byte last_byte is_label_byte String.append].
      rewrite append_cons.
      cbn [forall_bytes first_byte last_byte is_label_byte String.append].
      rewrite Hc, Hd, Hm, (label_byte_or_dot _ Hc), (label_byte_or_dot _ Hd).
      reflexivity.
  - intros H. apply andb_true_iff in H as [H Hlast].
    apply andb_true_iff in H as [Hall Hfirst].
    destruct s as [|c t]; [discriminate|]. cbn [first_byte is_label_byte] in Hfirst.
    assert (Hc1 : lang class_label (String c EmptyString)).
    { apply lang_class_label; [|eauto].
      apply (is_ascii_app (String c EmptyString) t) in Ha. apply Ha. }
    destruct t as [|c' t'].
    + change (String c EmptyString) with (String c EmptyString +:+ EmptyString).
      apply lang_Cat; [exact Hc1 | apply lang_Alt_l; constructor].
    + destruct (last_byte_split c' t') as (m & d & E & L).
      change (last_byte (String c (String c' t')))
        with (last_byte (String c' t')) in Hlast.
      rewrite L in Hlast. cbn [is_label_byte] in Hlast.
      change (String c (String c' t'))
        with (String c EmptyString +:+ String c' t').
      rewrite E. rewrite E in Ha, Hall.
      apply (is_ascii_app (String c EmptyString)) in Ha as [_ Ha].
      apply is_ascii_app in Ha as [Ham Had].
      cbn [forall_bytes] in Hall. apply andb_true_iff in Hall as [_ Hall].
      rewrite forall_bytes_app in Hall. apply andb_true_iff in Hall as [Hm _].
      apply lang_Cat; [exact Hc1|]. apply lang_Alt_r, lang_Cat.
      * apply lang_Star_class; assumption.
      * apply lang_class_label; [exact Had | eauto].
Qed.

Lemma lang_hostnameRegexp (s : string) :
  is_ascii s = true ->
  lang hostnameRegexp s <-> lang body_regexp (strip_wildcard s).
Proof.
  intros Ha. unfold hostnameRegexp. split.
  - intros H. apply lang_Cat_inv in H as (w & b & -> & Hw & Hb).
    apply lang_Alt_inv in Hw as [Hw | Hw].
    + inversion Hw; subst. rewrite append_nil_l.
      assert (Hs : body_shape b = true) by (apply lang_body; assumption).
      destruct b as [|c1 [|c2 rest]]; try exact Hb.
      unfold strip_wildcard.
      apply andb_true_iff in Hs as [Hs _]. apply andb_true_iff in Hs as [_ Hf].
      cbn [first_byte is_label_byte] in Hf.
      rewrite (label_byte_not_star _ Hf). exact Hb.
    + apply lang_Cat_inv in Hw as (w1 & w2 & -> & H1 & H2).
      apply lang_Range_inv in H1 as (c1 & -> & Hc1).
      apply lang_Range_inv in H2 as (c2 & -> & Hc2).
      change ((String c1 EmptyString +:+ String c2 EmptyString) +:+ b)
        with (String c1 (String c2 b)).
      unfold strip_wildcard, dot_byte. rewrite Hc1, Hc2. exact Hb.
  - intros H. destruct s as [|c1 [|c2 rest]];
      try (change (lang (Cat (Opt (Cat (Range 42 42) (Range 46 46))) body_regexp)
                     (EmptyString +:+ strip_wildcard EmptyString)) ||
           change (lang (Cat (Opt (Cat (Range 42 42) (Range 46 46))) body_regexp)
                     (EmptyString +:+ strip_wildcard (String c1 EmptyString)));
           apply lang_Cat; [apply lang_Alt_l; constructor | exact H]).
    unfold strip_wildcard in H.
    destruct (in_range 42 42 c1 && dot_byte c2) eqn:E.
    + apply andb_true_iff in E as [E1 E2].
      change (String c1 (String c2 rest))
        with ((String c1 EmptyString +:+ String c2 EmptyString) +:+ rest).
      apply lang_Cat; [|exact H].
      apply lang_Alt_r, lang_Cat; constructor; assumption.
    + change (String c1 (String c2 rest))
        with (EmptyString +:+ String c1 (String c2 rest)).
      apply lang_Cat; [apply lang_Alt_l; constructor | exact H].
Qed.

(** On ASCII strings the pattern accepts exactly the strings of the shape
    [hostname_shape]. *)
Lemma hostnameRegexp_shape (s : string) :
  is_ascii s = true -> MatchString hostnameRegexp s = hostname_shape s.
Proof.
  intros Ha. apply eq_true_iff_eq.
  rewrite MatchString_lang, (lang_hostnameRegexp _ Ha).
  apply lang_body, is_ascii_strip_wildcard, Ha.
Qed.

(** ** The grammar of the specification is accepted *)

Lemma eqb_dot (c : ascii) : Ascii.eqb c "." = dot_byte c.
Proof.
  destruct c as [[] [] [] [] [] [] [] []]; reflexivity.
Qed.

Lemma split_on_cons (sep : ascii) (s : string) :
  exists f fs, split_on sep s = f :: fs.
Proof.
  induction s as [|c s (f & fs & IH)]; simpl; [eauto|].
  destruct (Ascii.eqb c sep); [eauto|]. rewrite IH. eauto.
Qed.

Lemma split_on_first (sep d : ascii) (r : string) (f : string) (fs : list string) :
  split_on sep (String d r) = f :: fs -> nonempty f = true \/ fs <> [].
Proof.
  simpl. destruct (Ascii.eqb d sep).
  - destruct (split_on_cons sep r) as (f' & fs' & E). rewrite E.
    intros H; injection H as <- <-. right; discriminate.
  - destruct (split_on_cons sep r) as (f' & fs' & E). rewrite E.
    intros H; injection H as <- <-. left; reflexivity.
Qed.

Lemma spec_labels_shape (b : string) :
  forall f fs,
    split_on "." b = f :: fs ->
    forall_bytes label_byte f = true ->
    forallb spec_label fs = true ->
    forall_bytes label_or_dot b = true
    /\ (nonempty f = true -> is_label_byte (first_byte b) = true)
    /\ (nonempty f = true \/ fs <> [] -> is_label_byte (last_byte b) = true).
Proof.
  induction b as [|c r IH]; intros f fs Hs Hf Hfs.
  - injection Hs as <- <-. repeat split.
    + discriminate.
    + intros [H | H]; [discriminate | congruence].
  - destruct (split_on_cons "." r) as (f' & fs' & E).
    cbn [split_on] in Hs. rewrite E, eqb_dot in Hs.
    destruct (dot_byte c) eqn:Ec.
    + injection Hs as <- <-.
      cbn [forallb] in Hfs. apply andb_true_iff in Hfs as [Hl Hfs'].
      apply andb_true_iff in Hl as [Hne Hl].
      destruct (IH f' fs' E Hl Hfs') as (Hall & Hfirst & Hlast).
      specialize (Hfirst Hne). specialize (Hlast (or_introl Hne)).
      destruct r as [|d r']; [discriminate|].
      repeat split.
      * cbn [forall_bytes]. unfold label_or_dot at 1. rewrite Ec. exact Hall.
      * discriminate.
      * intros _. exact Hlast.
    + injection Hs as <- <-.
      cbn [forall_bytes] in Hf. apply andb_true_iff in Hf as [Hc Hf'].
      destruct (IH f' fs' E Hf' Hfs) as (Hall & Hfirst & Hlast).
      repeat split.
      * cbn [forall_bytes]. rewrite (label_byte_or_dot _ Hc). exact Hall.
      * intros _. exact Hc.
      * intros _. destruct r as [|d r']; [exact Hc|].
        apply Hlast. exact (split_on_first _ _ _ _ _ E).
Qed.

Lemma spec_hostname_shape (s : string) :
  spec_hostname s = true -> hostname_shape s = true.
Proof.
  unfold spec_hostname, hostname_shape, body_shape.
  destruct (split_on_cons "." (strip_wildcard s)) as (f & fs & E).
  rewrite E. cbn [forallb]. intros H.
  apply andb_true_iff in H as [Hl Hfs]. apply andb_true_iff in Hl as [Hne Hl].
  destruct (spec_labels_shape _ _ _ E Hl Hfs) as (Hall & Hfirst & Hlast).
  rewrite Hall, (Hfirst Hne), (Hlast (or_introl Hne)). reflexivity.
Qed.

(** The pattern on a few hostnames. *)
Example hostname_plain : MatchString hostnameRegexp "example.org" = true.
Proof. reflexivity. Qed.

Example hostname_upper : MatchString hostnameRegexp "Example.ORG" = true.
Proof. reflexivity. Qed.

Example hostname_trailing_dot :
  MatchString hostnameRegexp "example.org." = false.
Proof. reflexivity. Qed.

Example hostname_inner_wildcard :
  MatchString hostnameRegexp "a.*.example.org" = false.
Proof. reflexivity. Qed.

(** U+212A, the Kelvin sign, folds to [k]; no ASCII string contains it. *)
Example hostname_kelvin_sign :
  MatchString hostnameRegexp "K" = true /\ is_ascii "K" = false.
Proof. split; reflexivity. Qed.

(** ** C6: the hostname grammar *)

(** C6, as stated, fails: the pattern accepts the ASCII string [a..b], which
    has an empty label between its two dots and is not in the grammar of
    labels separated by dots. *)
Lemma hostname_grammar_counterexample :
  is_ascii "a..b" = true
  /\ MatchString hostnameRegexp "a..b" = true
  /\ spec_hostname "a..b" = false.
Proof. repeat split; reflexivity. Qed.

(** C6, amended: on an ASCII string the pattern accepts exactly one optional
    leading wildcard label followed by a non-empty run of letters of either
    case, digits, hyphens, underscores and dots that neither starts nor ends
    with a dot; this contains every string of the grammar of labels separated
    by dots.  [*.example.org] is accepted as a DNS name and replaces the
    argument; [*example.org] is rejected with the terminal error. *)
Theorem hostname_grammar :
  (forall s, is_ascii s = true ->
             MatchString hostnameRegexp s = hostname_shape s)
  /\ (forall s, is_ascii s = true -> spec_hostname s = true ->
                MatchString hostnameRegexp s = true)
  /\ (forall P i args name,
        ParseIP P name = false -> is_email P name = false ->
        is_uri P name = false -> ToASCII P name = inl name ->
        (name = "*.example.org" ->
           spec_classify P name = inl (DNSName name)
           /\ check_name P i name args = (<[i := name]> args, None))
        /\ (name = "*example.org" ->
              check_name P i name args =
                (<[i := name]> args,
                 Some ("ERROR: " +:+ Quote P name
                         +:+ " is not a valid hostname, IP, URL or email")))).
Proof.
  split; [exact hostnameRegexp_shape|]. split.
  - intros s Ha Hs. rewrite (hostnameRegexp_shape _ Ha).
    apply spec_hostname_shape, Hs.
  - intros P i args name Hip Hem Hur Hto.
    unfold spec_classify, check_name. rewrite Hip, Hem, Hur, Hto.
    split; intros ->; [split|]; reflexivity.
Qed.

Lemma hostname_grammar_witness :
  MatchString hostnameRegexp "xn--bcher-kva.example" = hostname_shape "xn--bcher-kva.example"
  /\ MatchString hostnameRegexp "my_app.dev" = true
  /\ check_name demo 1 "*.example.org" ["localhost"; "*.example.org"]
     = (["localhost"; "*.example.org"], None)
  /\ check_name demo 0 "*example.org" ["*example.org"]
     = (["*example.org"],
        Some ("ERROR: " +:+ quoted "*example.org"
                +:+ " is not a valid hostname, IP, URL or email")).
Proof.
  destruct hostname_grammar as (H1 & H2 & H3).
  split; [apply H1; reflexivity|].
  split; [apply H2; reflexivity|].
  split.
  - apply (H3 demo 1 ["localhost"; "*.example.org"] "*.example.org");
      reflexivity.
  - apply (H3 demo 0 ["*example.org"] "*example.org"); reflexivity.
Defined.

(** ** Running the model symbolically *)

Ltac open_state s :=
  let c := fresh "c" in
  let h := fresh "h" in
  destruct s as [[c] h]; destruct c; cbn [flag self embedded hist
    InstallMode UninstallMode PKCS12 ECDSA Client KeyFile CertFile P12File
    CSRPath CAROOT_field caCert caKey ignoreCheckFailure] in *.

Ltac unfold_run :=
  unfold events_of, events_since, Config_Run, Run, install, uninstall,
    check_stores, install_system, install_nss, install_java, uninstall_nss,
    uninstall_java, uninstall_system, checkPlatform, log, bind, call, emit,
    ret, get, modify, with_CAROOT, with_ca, with_ignoreCheckFailure, flag in *.

Ltac reduce_run :=
  cbn [fst snd self hist embedded InstallMode UninstallMode PKCS12 ECDSA
    Client KeyFile CertFile P12File CSRPath CAROOT_field caCert caKey
    ignoreCheckFailure negb andb orb length Nat.eqb] in *.

(** Case analysis on the leftmost atom of a condition. *)
Ltac case_atom b :=
  lazymatch b with
  | andb ?x _ => case_atom x
  | orb ?x _ => case_atom x
  | negb ?x => case_atom x
  | _ => let E := fresh "E" in destruct b eqn:E
  end.

(** Case analysis on the next condition the run depends on. *)
Ltac branch :=
  match goal with
  | |- context [if ?b then _ else _] =>
      lazymatch b with
      | true => fail
      | false => fail
      | _ => case_atom b
      end
  | |- context [match ?x with Some _ => _ | None => _ end] =>
      lazymatch x with
      | Some _ => fail
      | None => fail
      | _ => let E := fresh "E" in destruct x eqn:E
      end
  | |- context [match ?x with (_, _) => _ end] =>
      lazymatch x with
      | (_, _) => fail
      | _ => let E := fresh "E" in destruct x eqn:E
      end
  | |- context [match ?x with Return => _ | Proceed => _ end] =>
      lazymatch x with
      | Return => fail
      | Proceed => fail
      | _ => let E := fresh "E" in destruct x eqn:E
      end
  end; reduce_run.

Ltac run_all := unfold_run; reduce_run; repeat branch.

(** The events of a finished path, read off its history. *)
Ltac read_events :=
  rewrite <- ?app_assoc; cbn [app];
  rewrite ?drop_app_length, ?app_nil_r;
  try match goal with
      | |- context [drop (length ?h) ?h] =>
          replace (drop (length h) h) with (@nil Event)
            by (symmetry; apply drop_all)
      end.

(** ** C3: the order of the trust stores *)

Lemma install_in_order (P : Platform) (s : State) :
  in_order system_nss_java (events_of (install P) s) = true.
Proof.
  open_state s. run_all; read_events; reflexivity.
Qed.

Lemma uninstall_in_order (P : Platform) (s : State) :
  in_order nss_java_system (events_of (uninstall P) s) = true
  \/ (storeEnabled P "system" = false
      /\ exists body line,
           events_of (uninstall P) s
             = body ++ [Log (Some NSS) line; Log (Some NSS) EmptyString]
           /\ in_order nss_java_system body = true).
Proof.
  open_state s. run_all; read_events;
    first
      [ left; reflexivity
      | right; split; [reflexivity|];
        match goal with
        | |- exists body line, ?evs = _ /\ _ =>
            exists (take (length evs - 2) evs); eexists;
            split; reflexivity
        end ].
Qed.

Lemma uninstall_no_probe (P : Platform) (s : State) :
  forallb (fun e => negb (is_probe e)) (events_of (uninstall P) s) = true.
Proof.
  open_state s. run_all; read_events; reflexivity.
Qed.

(** C3, as stated, fails for Uninstall mode: with every store enabled the
    NSS and Java stores are detached before the system store. *)
Lemma uninstall_order_counterexample :
  tags (events_of (uninstall demo) (start (config false true EmptyString)))
    = [NSS; Java; System; System; System]
  /\ in_order system_nss_java
       (events_of (uninstall demo) (start (config false true EmptyString)))
     = false.
Proof. split; reflexivity. Qed.

(** C3, amended: in Install mode the trust stores are probed and changed one
    after the other in the order system, NSS, Java, and the log lines of the
    stores follow that order.  In Uninstall mode no store is probed, and the
    stores are changed in the order NSS, Java, system, with the log lines of
    the stores in that order too, except that when the system store is not
    enabled the line that confirms the NSS uninstall comes last, after the
    Java step. *)
Theorem trust_store_order (P : Platform) (s : State) :
  in_order system_nss_java (events_of (install P) s) = true
  /\ forallb (fun e => negb (is_probe e)) (events_of (uninstall P) s) = true
  /\ (in_order nss_java_system (events_of (uninstall P) s) = true
      \/ (storeEnabled P "system" = false
          /\ exists body line,
               events_of (uninstall P) s
                 = body ++ [Log (Some NSS) line; Log (Some NSS) EmptyString]
               /\ in_order nss_java_system body = true)).
Proof.
  split; [apply install_in_order|].
  split; [apply uninstall_no_probe | apply uninstall_in_order].
Qed.

(** The path-by-path version: the call is named first, as [E : m s = r],
    and the conditions are taken in the order the run meets them. *)
Ltac stuck t :=
  lazymatch t with
  | fst ?x => stuck x
  | snd ?x => stuck x
  | (if ?b then _ else _) => stuck b
  | match ?x with Some _ => _ | None => _ end => stuck x
  | match ?x with Return => _ | Proceed => _ end => stuck x
  | match ?x with (_, _) => _ end => stuck x
  | andb ?x _ => stuck x
  | orb ?x _ => stuck x
  | negb ?x => stuck x
  | ?f ?x =>
      lazymatch f with
      | (if ?b then _ else _) => stuck b
      | match ?y with Some _ => _ | None => _ end => stuck y
      | match ?y with Return => _ | Proceed => _ end => stuck y
      | match ?y with (_, _) => _ end => stuck y
      | _ => let E := fresh "E" in destruct t eqn:E
      end
  | _ => let E := fresh "E" in destruct t eqn:E
  end.

Ltac exec_step E :=
  lazymatch type of E with
  | (_, _) = _ => fail
  | ?X = _ => stuck X; reduce_run
  end.

Ltac exec E :=
  unfold invoke in E; unfold_run; reduce_run; repeat exec_step E;
  injection E; clear E; intros; subst; reduce_run;
  rewrite <- ?app_assoc; cbn [app].

(** ** C7: the suppression flag *)

Lemma checkPlatform_suppressed (P : Platform) (s : State) :
  flag s = true -> checkPlatform P s = (true, s).
Proof.
  open_state s. intros ->. reflexivity.
Qed.

(** Once the flag is set, no method of the receiver clears it and none
    verifies the certificate. *)
Lemma invoke_suppressed (P : Platform) (m : Method) (s : State) :
  flag s = true ->
  flag (snd (invoke P m s)) = true
  /\ exists new, hist (snd (invoke P m s)) = hist s ++ new
                 /\ forallb (fun e => negb (is_Verify e)) new = true.
Proof.
  open_state s. intros ->.
  destruct (invoke P m _) as [u s'] eqn:E. cbn [snd].
  destruct m; exec E;
    (split; [reflexivity|]);
    first [ eexists; split; [reflexivity | reflexivity]
          | exists []; split; [symmetry; apply app_nil_r | reflexivity] ].
Qed.

Lemma invoke_all_suppressed (P : Platform) (ms : list Method) (s : State) :
  flag s = true ->
  flag (snd (invoke_all P ms s)) = true
  /\ exists new, hist (snd (invoke_all P ms s)) = hist s ++ new
                 /\ forallb (fun e => negb (is_Verify e)) new = true.
Proof.
  revert s. induction ms as [|m ms IH]; intros s Hs.
  - split; [exact Hs|]. exists []. split; [symmetry; apply app_nil_r | reflexivity].
  - cbn [invoke_all]. unfold bind.
    destruct (invoke_suppressed P m s Hs) as (Hf & n1 & Hh & Hn1).
    destruct (invoke P m s) as [u s1]. cbn [snd] in *.
    destruct (IH s1 Hf) as (Hf2 & n2 & Hh2 & Hn2).
    split; [exact Hf2|]. exists (n1 ++ n2). split.
    + rewrite Hh2, Hh. symmetry. apply app_assoc.
    + rewrite forallb_app, Hn1, Hn2. reflexivity.
Qed.

(** C7: when the system store is enabled, the CA is not yet trusted and
    [installPlatform] succeeds, [install] sets [ignoreCheckFailure]; from
    then on, whatever methods the run calls on the receiver, the flag stays
    set, no certificate verification is performed, and [checkPlatform]
    returns true and leaves the state as it is. *)
Theorem install_suppresses_check (P : Platform) (s : State) :
  storeEnabled P "system" = true ->
  flag s = false ->
  Verify P (caCert (embedded (self s))) (hist s) = false ->
  installPlatform P (hist s ++ [Ev_Verify]) = None ->
  let s1 := snd (install P s) in
  flag s1 = true
  /\ forall ms : list Method,
       let s2 := snd (invoke_all P ms s1) in
       flag s2 = true
       /\ forallb (fun e => negb (is_Verify e)) (events_since (hist s1) s2) = true
       /\ checkPlatform P s2 = (true, s2).
Proof.
  intros Hsys Hflag Hver Hinst s1.
  assert (H1 : flag s1 = true).
  { subst s1. revert Hflag Hver Hinst. open_state s. intros -> Hver Hinst.
    destruct (install P _) as [u s'] eqn:E. cbn [snd].
    unfold install, install_system, checkPlatform, bind, get, call in E.
    reduce_run. rewrite Hsys in E. reduce_run. rewrite Hver in E. reduce_run.
    rewrite Hinst in E. exec E; reflexivity. }
  split; [exact H1|]. intros ms s2.
  destruct (invoke_all_suppressed P ms s1 H1) as (Hf & new & Hh & Hnew).
  fold s2 in Hf, Hh. split; [exact Hf|]. split.
  - unfold events_since. rewrite Hh, drop_app_length. exact Hnew.
  - apply checkPlatform_suppressed, Hf.
Qed.

Lemma install_suppresses_check_witness :
  let s1 := snd (install demo (start (config true false EmptyString))) in
  flag s1 = true
  /\ forall ms : list Method,
       let s2 := snd (invoke_all demo ms s1) in
       flag s2 = true
       /\ forallb (fun e => negb (is_Verify e)) (events_since (hist s1) s2) = true
       /\ checkPlatform demo s2 = (true, s2).
Proof.
  apply (install_suppresses_check demo (start (config true false EmptyString)));
    reflexivity.
Defined.

(** ** C8: Uninstall mode *)

(** C8: in Uninstall mode [Run] leaves the arguments as they are and does
    nothing but create the CAROOT directory, load the CA, detach trust and
    log: no trust store is probed, nothing is installed, no certificate is
    issued from the arguments or from a CSR, and no file is removed.  When
    the CAROOT is found and created, [Run] is exactly the loading of the CA
    followed by [uninstall], and it returns no error. *)
Theorem uninstall_mode_returns (P : Platform) (c : Config)
    (args : list string) (h : list Event) :
  InstallMode c = false ->
  UninstallMode c = true ->
  let r := Config_Run P c args h in
  fst (fst r) = args
  /\ (exists new, hist (snd r) = h ++ new
                  /\ forallb is_uninstall_step new = true)
  /\ (nonempty (CAROOT P) = true ->
      MkdirAll P (CAROOT P) h = None ->
      let h1 := h ++ [Ev_MkdirAll (CAROOT P)] in
      let ca := loadCA P (CAROOT P) h1 in
      let loaded :=
        {| self := {| embedded :=
                        with_ca (fst ca) (snd ca) (with_CAROOT (CAROOT P) c) |};
           hist := h1 ++ [Ev_loadCA] |} in
      r = ((args, None), snd (uninstall P loaded))).
Proof.
  intros Hi Hu r. subst r. split; [|split].
  - destruct c; cbn in Hi, Hu; subst.
    destruct (Config_Run P _ args h) as [[a e] s'] eqn:E. cbn [fst snd].
    exec E; reflexivity.
  - destruct c; cbn in Hi, Hu; subst.
    destruct (Config_Run P _ args h) as [r s'] eqn:E. cbn [snd].
    exec E;
      first [ eexists; split; [reflexivity | reflexivity]
            | exists []; split; [symmetry; apply app_nil_r | reflexivity] ].
  - intros Hroot Hmk. cbn zeta.
    destruct c; cbn in Hi, Hu; subst.
    unfold Config_Run, Run, bind, modify, get, call, ret, with_ca, with_CAROOT.
    reduce_run. rewrite Hroot. reduce_run. rewrite Hmk. reduce_run.
    destruct (uninstall P _) as [e s']. reflexivity.
Qed.

Lemma uninstall_mode_returns_witness :
  let r := Config_Run demo (config false true "req.csr") ["example.org"] [] in
  fst r = (["example.org"], None)
  /\ hist (snd r)
     = [ Ev_MkdirAll "/home/dev/ca"; Ev_loadCA;
         Ev_uninstallNSS; Ev_uninstallJava; Ev_uninstallPlatform;
         Log (Some System)
           "The local CA is now uninstalled from the system trust store(s)! 👋";
         Log (Some System) EmptyString ].
Proof.
  destruct (uninstall_mode_returns demo (config false true "req.csr")
              ["example.org"] [] eq_refl eq_refl) as (_ & _ & H).
  specialize (H eq_refl eq_refl). cbn zeta in *. rewrite H.
  split; reflexivity.
Defined.

(** ** C2: Install together with a CSR *)

(** C2, at the failing input: in Install mode with a CSR and no positional
    argument (the only way the front end passes a CSR), [Run] installs and
    returns without an error and without calling the issuer. *)
Theorem install_with_csr_stops (P : Platform) (c : Config) (h : list Event) :
  InstallMode c = true ->
  nonempty (CSRPath c) = true ->
  let r := Config_Run P c [] h in
  (exists new, hist (snd r) = h ++ new
               /\ forallb (fun e => negb (is_issue e)) new = true)
  /\ (nonempty (CAROOT P) = true -> MkdirAll P (CAROOT P) h = None ->
      fst r = ([], None)).
Proof.
  intros Hi Hc r. subst r. destruct c; cbn in Hi, Hc; subst.
  destruct (Config_Run P _ [] h) as [[a e] s'] eqn:E. cbn [fst snd].
  exec E;
    (split;
     [ first [ eexists; split; [reflexivity | reflexivity]
             | exists []; split; [symmetry; apply app_nil_r | reflexivity] ]
     | intros; first [reflexivity | discriminate | congruence] ]).
Qed.

Lemma install_with_csr_stops_witness :
  let r := Config_Run demo (config true false "req.csr") [] [] in
  (exists new, hist (snd r) = [] ++ new
               /\ forallb (fun e => negb (is_issue e)) new = true)
  /\ fst r = ([], None).
Proof.
  destruct (install_with_csr_stops demo (config true false "req.csr") []
              eq_refl eq_refl) as (H1 & H2).
  split; [exact H1 | exact (H2 eq_refl eq_refl)].
Defined.

(** The sibling path: with a positional argument as well, the same
    configuration reaches the issuer for the CSR. *)
Lemma install_with_csr_and_args_issues :
  hist (snd (Config_Run demo (config true false "req.csr") ["example.org"] []))
  = [ Ev_MkdirAll "/home/dev/ca"; Ev_loadCA;
      Ev_Verify; Ev_installPlatform;
      Log (Some System)
        "The local CA is now installed in the system trust store! ⚡️";
      Ev_checkNSS; Ev_installNSS;
      Log (Some NSS)
        "The local CA is now installed in the Firefox and/or Chrome/Chromium trust store (requires browser restart)! 🦊";
      Ev_checkJava; Ev_installJava;
      Log (Some Java) "The local CA is now installed in Java's trust store! ☕️";
      Log None EmptyString;
      Ev_makeCertFromCSR ].
Proof. reflexivity. Qed.

(** ** C1: no subjects, no CSR, no mode *)

(** C1, at the failing input: without any flag and without arguments the
    front end prints no usage message; it calls [Run], which creates the
    CAROOT directory, loads (or creates) the CA and calls the issuer with the
    empty subject list. *)
Theorem main_without_subjects_runs (P : Platform) (f : Flags) :
  helpFlag f = false -> versionFlag f = false -> carootFlag f = false ->
  installFlag f = false -> uninstallFlag f = false ->
  nonempty (csrFlag f) = false ->
  nonempty (CAROOT P) = true -> MkdirAll P (CAROOT P) [] = None ->
  let evs := fst (main P f []) in
  take 2 evs = [Ev_MkdirAll (CAROOT P); Ev_loadCA]
  /\ existsb (fun e => match e with Ev_makeCert [] => true | _ => false end) evs
     = true
  /\ forallb (fun e => negb (is_Stderr e)) evs = true.
Proof.
  intros Hh Hv Hc Hi Hu Hcsr Hroot Hmk evs. subst evs.
  destruct f; cbn in Hh, Hv, Hc, Hi, Hu, Hcsr; subst.
  unfold main.
  cbn [helpFlag versionFlag carootFlag installFlag uninstallFlag csrFlag
       pkcs12Flag ecdsaFlag clientFlag certFileFlag keyFileFlag p12FileFlag].
  rewrite Hcsr. reduce_run.
  destruct (Config_Run P _ [] []) as [[a e] s'] eqn:E.
  unfold Config_Run, Run in E.
  change (check_args P []) with (@nil string, @None string) in E.
  exec E; try congruence; repeat branch; repeat split; reflexivity.
Qed.

Lemma main_without_subjects_runs_witness :
  let evs := fst (main demo (flags false false false false EmptyString) []) in
  take 2 evs = [Ev_MkdirAll "/home/dev/ca"; Ev_loadCA]
  /\ existsb (fun e => match e with Ev_makeCert [] => true | _ => false end) evs
     = true
  /\ forallb (fun e => negb (is_Stderr e)) evs = true.
Proof.
  apply (main_without_subjects_runs demo
           (flags false false false false EmptyString)); reflexivity.
Defined.

(** The condition that guards the usage message is met only when a CSR is
    given: with a CSR alone the front end prints the usage and issues
    nothing. *)
Lemma main_csr_alone_prints_usage :
  main demo (flags false false false false "req.csr") [] = (Usage, 0).
Proof. reflexivity. Qed.

(** ** C4: conflicting options *)

(** C4, as stated, fails: [-help] is handled before the options are
    validated, so [-help -install -uninstall] prints the help and exits with
    status 0. *)
Lemma help_before_validation_counterexample :
  conflicting (flags true true true false EmptyString) [] = true
  /\ main demo (flags true true true false EmptyString) []
     = ([Stdout shortUsage; Stdout advancedUsage], 0).
Proof. split; reflexivity. Qed.

(** C4, amended: a combination with Install and Uninstall together, or a
    CSR with PKCS12, ECDSA or client, or a CSR with positional arguments,
    never has an effect besides output; and unless [-help] or [-version] is
    given, or [-CAROOT] without [-install] and [-uninstall] (which print and
    exit first), it is rejected with an error line and exit status 1. *)
Theorem conflicting_options_rejected (P : Platform) (f : Flags)
    (args : list string) :
  conflicting f args = true ->
  forallb is_output (fst (main P f args)) = true
  /\ (helpFlag f = false -> versionFlag f = false ->
      carootFlag f = false \/ installFlag f || uninstallFlag f = true ->
      exists line, main P f args = Fatal line).
Proof.
  unfold conflicting, main. destruct f.
  cbn [helpFlag versionFlag carootFlag installFlag uninstallFlag csrFlag
       pkcs12Flag ecdsaFlag clientFlag certFileFlag keyFileFlag p12FileFlag].
  destruct (nonempty csrFlag0), (Nat.eqb (length args) 0),
    helpFlag0, versionFlag0, carootFlag0, installFlag0, uninstallFlag0,
    pkcs12Flag0, ecdsaFlag0, clientFlag0;
    cbn [andb orb negb]; intros Hc; try discriminate Hc;
    (split;
     [ try reflexivity;
       destruct (nonempty (Version P)); try reflexivity;
       destruct (ReadBuildInfo P); reflexivity
     | intros Hh Hv Hca; try discriminate;
       try (destruct Hca; discriminate);
       eexists; reflexivity ]).
Qed.

Lemma conflicting_options_rejected_witness :
  forallb is_output
    (fst (main demo (flags true true false false EmptyString) ["example.org"]))
  = true
  /\ exists line,
       main demo (flags true true false false EmptyString) ["example.org"]
       = Fatal line.
Proof.
  destruct (conflicting_options_rejected demo
              (flags true true false false EmptyString) ["example.org"]
              eq_refl) as (H1 & H2).
  split; [exact H1|]. apply H2; [reflexivity | reflexivity | left; reflexivity].
Defined.

(** ** C9: the privileged-execution gate *)

Lemma warnings_Once_Do (s : Process) :
  warnings (Once_Do sudoWarning s)
  = if sudoWarningOnce s then warnings s else S (warnings s).
Proof.
  unfold Once_Do, warnings. destruct (sudoWarningOnce s); [reflexivity|].
  cbn [output]. rewrite List.filter_app, length_app. cbn [List.filter is_sudoWarning].
  rewrite String.eqb_refl. cbn [length]. lia.
Qed.

Lemma once_invariant_Once_Do (s : Process) :
  once_invariant s ->
  once_invariant (Once_Do sudoWarning s)
  /\ sudoWarningOnce (Once_Do sudoWarning s) = true.
Proof.
  unfold once_invariant. intros H. rewrite warnings_Once_Do, H.
  unfold Once_Do. destruct (sudoWarningOnce s) eqn:Es; cbn [sudoWarningOnce];
    rewrite ?Es; split; reflexivity.
Qed.

Lemma gate_calls_spec (calls : list (Privilege * list string)) (s : Process) :
  fst (gate_calls calls s) = map gate_result calls
  /\ (once_invariant s ->
      once_invariant (snd (gate_calls calls s))
      /\ sudoWarningOnce (snd (gate_calls calls s))
         = sudoWarningOnce s || existsb unprivileged calls).
Proof.
  revert s. induction calls as [|[pv cmd] rest IH]; intros s.
  - split; [reflexivity|]. intros H. split; [exact H|].
    cbn. rewrite orb_false_r. reflexivity.
  - cbn [gate_calls map existsb]. unfold commandWithSudo, gate_result, unprivileged.
    cbn [fst]. destruct (is_root pv); cbn [negb andb orb].
    + destruct (IH s) as [IH1 IH2]. destruct (gate_calls rest s) as [cs s2].
      cbn [fst snd] in *. split; [rewrite IH1; reflexivity | exact IH2].
    + destruct (sudo_exists pv); cbn [negb andb orb].
      * destruct (IH s) as [IH1 IH2]. destruct (gate_calls rest s) as [cs s2].
        cbn [fst snd] in *. split; [rewrite IH1; reflexivity | exact IH2].
      * destruct (IH (Once_Do sudoWarning s)) as [IH1 IH2].
        destruct (gate_calls rest (Once_Do sudoWarning s)) as [cs s2].
        cbn [fst snd] in *. split; [rewrite IH1; reflexivity|].
        intros H. apply once_invariant_Once_Do in H as [H Ht].
        destruct (IH2 H) as [I1 I2].
        split; [exact I1|]. rewrite I2, Ht. symmetry. apply orb_true_r.
Qed.

(** C9: as the superuser the gate returns the command as it is; otherwise,
    when [sudo] exists, the command wrapped as [sudo] with the fixed prompt;
    otherwise the command as it is, after the warning, which the [sync.Once]
    logs only the first time.  Over any sequence of calls in a process every
    result depends on what that call finds alone, and the warning is logged
    once if some call finds neither the superuser nor [sudo], and never
    otherwise. *)
Theorem gate_escalates (calls : list (Privilege * list string)) :
  (forall pv name rest s,
     is_root pv = true ->
     commandWithSudo pv (name :: rest) s
     = (Some {| Name := name; Args := rest |}, s))
  /\ (forall pv cmd s,
        is_root pv = false -> sudo_exists pv = true ->
        commandWithSudo pv cmd s
        = (Some {| Name := "sudo";
                   Args := "--prompt=Sudo password:" :: "--" :: cmd |}, s))
  /\ (forall pv name rest s,
        is_root pv = false -> sudo_exists pv = false ->
        commandWithSudo pv (name :: rest) s
        = (Some {| Name := name; Args := rest |},
           if sudoWarningOnce s then s
           else {| sudoWarningOnce := true;
                   output := output s ++ [Log None sudoWarning] |}))
  /\ fst (gate_calls calls fresh_process) = map gate_result calls
  /\ warnings (snd (gate_calls calls fresh_process))
     = (if existsb unprivileged calls then 1 else 0).
Proof.
  split; [|split; [|split; [|split]]].
  - intros pv name rest s H. unfold commandWithSudo. rewrite H. reflexivity.
  - intros pv cmd s H1 H2. unfold commandWithSudo. rewrite H1, H2. reflexivity.
  - intros pv name rest s H1 H2. unfold commandWithSudo. rewrite H1, H2.
    reflexivity.
  - apply gate_calls_spec.
  - destruct (gate_calls_spec calls fresh_process) as [_ H].
    destruct H as [H1 H2]; [reflexivity|]. rewrite H1, H2. reflexivity.
Qed.

Lemma gate_escalates_witness :
  commandWithSudo {| Current_Uid := Some "0"; sudo_exists := true |}
    ["security"; "add-trusted-cert"] fresh_process
  = (Some {| Name := "security"; Args := ["add-trusted-cert"] |}, fresh_process)
  /\ commandWithSudo {| Current_Uid := Some "1000"; sudo_exists := true |}
       ["tee"; "/etc/ca.pem"] fresh_process
     = (Some {| Name := "sudo";
                Args := ["--prompt=Sudo password:"; "--"; "tee"; "/etc/ca.pem"] |},
        fresh_process)
  /\ commandWithSudo {| Current_Uid := None; sudo_exists := false |}
       ["tee"; "/etc/ca.pem"] fresh_process
     = (Some {| Name := "tee"; Args := ["/etc/ca.pem"] |},
        {| sudoWarningOnce := true; output := [Log None sudoWarning] |})
  /\ warnings
       (snd (gate_calls
               [ ({| Current_Uid := Some "1000"; sudo_exists := false |},
                  ["tee"; "a"]);
                 ({| Current_Uid := Some "0"; sudo_exists := false |},
                  ["rm"; "a"]);
                 ({| Current_Uid := None; sudo_exists := false |},
                  ["tee"; "b"]) ]
               fresh_process))
     = 1.
Proof.
  destruct (gate_escalates
              [ ({| Current_Uid := Some "1000"; sudo_exists := false |},
                 ["tee"; "a"]);
                ({| Current_Uid := Some "0"; sudo_exists := false |},
                 ["rm"; "a"]);
                ({| Current_Uid := None; sudo_exists := false |},
                 ["tee"; "b"]) ]) as (H1 & H2 & H3 & _ & H5).
  split; [apply H1; reflexivity|].
  split; [apply H2; reflexivity|].
  split; [apply (H3 _ _ _ fresh_process); reflexivity|].
  exact H5.
Defined.

(** ** C5: the subject classifier *)

(** One iteration agrees with the classification of the specification. *)
Lemma check_name_spec (P : Platform) (i : nat) (name : string)
    (args : list string) :
  args !! i = Some name ->
  check_name P i name args
  = match spec_classify P name with
    | inl (DNSName punycode) => (<[i := punycode]> args, None)
    | inl _ => (args, None)
    | inr e => (<[i := attempted P name]> args, Some e)
    end.
Proof.
  intros Hi. unfold check_name, spec_classify, attempted.
  destruct (ParseIP P name); [reflexivity|].
  destruct (is_email P name); [reflexivity|].
  destruct (is_uri P name); [reflexivity|].
  destruct (ToASCII P name) as [punycode | err].
  - destruct (MatchString hostnameRegexp punycode); reflexivity.
  - rewrite (list_insert_id _ _ _ Hi). reflexivity.
Qed.

Lemma insert_middle (done_ rest : list string) (x y : string) :
  <[length done_ := y]> (done_ ++ x :: rest) = done_ ++ y :: rest.
Proof.
  rewrite <- (Nat.add_0_r (length done_)). rewrite insert_app_r. reflexivity.
Qed.

(** The loop, started at index [length done_] of [done_ ++ rest]. *)
Lemma range_args_valid (P : Platform) (rest done_ : list string) :
  Forall (valid_subject P) rest ->
  range_args P (length rest) (length done_) (done_ ++ rest)
  = (done_ ++ map (normalized P) rest, None).
Proof.
  revert done_. induction rest as [|x rest IH]; intros done_ Hv.
  - reflexivity.
  - inversion Hv as [|? ? [sub Hx] Hrest]; subst.
    cbn [length range_args map].
    rewrite (list_lookup_middle done_ rest x _ eq_refl).
    rewrite (check_name_spec P _ x _ (list_lookup_middle done_ rest x _ eq_refl)).
    unfold normalized. rewrite Hx.
    assert (Hnext : forall y,
      range_args P (length rest) (S (length done_)) (done_ ++ y :: rest)
      = (done_ ++ y :: map (normalized P) rest, None)).
    { intros y. specialize (IH (done_ ++ [y]) Hrest).
      rewrite List.length_app in IH. cbn [length] in IH.
      replace (length done_ + 1) with (S (length done_)) in IH by lia.
      rewrite <- !app_assoc in IH. exact IH. }
    destruct sub; rewrite ?insert_middle; apply Hnext.
Qed.

Lemma range_args_invalid (P : Platform) (pre : list string)
    (x : string) (post done_ : list string) (e : string) :
  Forall (valid_subject P) pre ->
  spec_classify P x = inr e ->
  range_args P (length (pre ++ x :: post)) (length done_)
    (done_ ++ pre ++ x :: post)
  = (done_ ++ map (normalized P) pre ++ attempted P x :: post, Some e).
Proof.
  revert done_. induction pre as [|y pre IH]; intros done_ Hv Hx.
  - cbn [app length range_args map].
    rewrite (list_lookup_middle done_ post x _ eq_refl).
    rewrite (check_name_spec P _ x _ (list_lookup_middle done_ post x _ eq_refl)).
    rewrite Hx, insert_middle. reflexivity.
  - inversion Hv as [|? ? [sub Hy] Hpre]; subst.
    cbn [app length range_args map].
    rewrite (list_lookup_middle done_ (pre ++ x :: post) y _ eq_refl).
    rewrite (check_name_spec P _ y _
               (list_lookup_middle done_ (pre ++ x :: post) y _ eq_refl)).
    unfold normalized at 1. rewrite Hy.
    assert (Hnext : forall z,
      range_args P (length (pre ++ x :: post)) (S (length done_))
        (done_ ++ z :: pre ++ x :: post)
      = (done_ ++ z :: map (normalized P) pre ++ attempted P x :: post, Some e)).
    { intros z. specialize (IH (done_ ++ [z]) Hpre Hx).
      replace (length (done_ ++ [z])) with (S (length done_)) in IH
        by (rewrite List.length_app; cbn [length]; lia).
      rewrite <- !app_assoc in IH. exact IH. }
    destruct sub; rewrite ?insert_middle; apply Hnext.
Qed.


(** When [Run] comes to the loop over the arguments (the CAROOT directory
    exists, there is no CSR, and the mode goes on to the arguments), it
    returns what the loop gives: on an error of the loop that error with the
    slice as the loop left it, and nothing issued; else the slice of the
    loop and the error of the one call of [makeCert], which is the last
    event. *)
Lemma Run_reaches_loop (P : Platform) (c : Config) (args : list string)
    (h : list Event) :
  reaches_loop P c args h ->
  let r := Config_Run P c args h in
  exists new,
    forallb (fun e => negb (is_issue e)) new = true
    /\ match check_args P args with
       | (args', Some e) =>
           fst r = (args', Some e) /\ hist (snd r) = h ++ new
       | (args', None) =>
           fst r = (args', makeCert P args' (h ++ new))
           /\ hist (snd r) = h ++ new ++ [Ev_makeCert args']
       end.
Proof.
  intros (Hroot & Hmk & Hcsr & Hmode). cbn zeta.
  destruct c as [ci cu cp ce cc ck ccf cpf ccsr croot ccert ckey cflag].
  cbn in Hcsr, Hmode.
  destruct (Config_Run P _ args h) as [r s'] eqn:E. cbn [fst snd].
  unfold Config_Run, Run, bind, modify, get, call, with_CAROOT in E.
  reduce_run. rewrite Hroot in E. reduce_run. rewrite Hmk in E.
  exec E; try discriminate; try congruence;
    match goal with
    | |- exists new, _ /\ (_ /\ ?h0 ++ ?evs = _ ++ new ++ [_]) =>
        exists (take (length evs - 1) evs); split; [reflexivity|];
        split; reflexivity
    | |- exists new, _ /\ (_ /\ ?h0 ++ ?evs = _ ++ new) =>
        exists evs; split; [reflexivity|]; split; reflexivity
    end.
Qed.



(** ** C10: the receiver of [Config.Run] is a copy *)

Lemma Run_resolves_CAROOT (P : Platform) (c : Config) (args : list string)
    (h : list Event) :
  CAROOT_field (embedded (self (snd (Config_Run P c args h)))) = CAROOT P.
Proof.
  destruct c. destruct (Config_Run P _ args h) as [r s'] eqn:E. cbn [snd].
  exec E; reflexivity.
Qed.

(** A run on a configuration whose flag is not set verifies the certificate
    whenever it comes to check the system store. *)
Lemma Run_verifies (P : Platform) (c : Config) (args : list string)
    (h : list Event) :
  ignoreCheckFailure c = false ->
  storeEnabled P "system" = true ->
  nonempty (CAROOT P) = true ->
  MkdirAll P (CAROOT P) h = None ->
  InstallMode c = true \/ UninstallMode c = false ->
  existsb is_Verify (events_since h (snd (Config_Run P c args h))) = true.
Proof.
  intros Hf Hsys Hroot Hmk Hmode. destruct c. cbn in Hf, Hmode. subst.
  unfold events_since.
  destruct (Config_Run P _ args h) as [r s'] eqn:E. cbn [snd].
  unfold Config_Run, Run, bind, modify, get, call, with_CAROOT in E.
  reduce_run. rewrite Hroot in E. reduce_run. rewrite Hmk in E.
  unfold install, install_system, check_stores, checkPlatform, bind, get,
    call, with_ca in E.
  reduce_run. rewrite Hsys in E.
  exec E; try (destruct Hmode; discriminate);
    rewrite drop_app_length; reflexivity.
Qed.

Lemma lookup_fresh (l : list Object) (o : Object) :
  (l ++ [o]) !! length l = Some o.
Proof. apply list_lookup_middle. reflexivity. Qed.

Lemma insert_fresh (l : list Object) (o o' : Object) :
  <[length l := o']> (l ++ [o]) = l ++ [o'].
Proof.
  rewrite <- (Nat.add_0_r (length l)) at 1. rewrite insert_app_r. reflexivity.
Qed.

(** On the variable at [a], [Config.Run] is the run on a new object around
    a copy: the heap grows by that object, in the state [Run] leaves it in,
    and nothing else of the heap is written. *)
Lemma Config_Run_at_spec (P : Platform) (mc : Machine) (a : nat) (c : Config)
    (args : list string) :
  heap mc !! a = Some (Obj_Config c) ->
  Config_Run_at P a args mc
  = Some (fst (Config_Run P c args (events mc)),
          {| heap := heap mc
                     ++ [Obj_mkcert
                           (self (snd (Config_Run P c args (events mc))))];
             events := hist (snd (Config_Run P c args (events mc))) |}).
Proof.
  intros Ha. unfold Config_Run_at, Run_at, Config_Run. rewrite Ha.
  cbn [heap events]. rewrite lookup_fresh.
  destruct (Run P args _) as [r s]. cbn [fst snd].
  rewrite insert_fresh. reflexivity.
Qed.

(** C10: [Config.Run], called on a [Config] variable, leaves that variable
    and every other object of the heap as they were.  What the run assigns
    (the resolved [CAROOT], the loaded CA, [ignoreCheckFailure]) goes to a
    new object that the caller does not hold; a second call on the same
    variable again reads the unchanged value, so that with
    [ignoreCheckFailure] not set in it the run starts without the flag and
    verifies the certificate when it checks the system store. *)
Theorem Config_Run_keeps_caller (P : Platform) (mc : Machine) (a : nat)
    (c : Config) (args args2 : list string) :
  heap mc !! a = Some (Obj_Config c) ->
  exists r1 mc1 m1,
    Config_Run_at P a args mc = Some (r1, mc1)
    /\ heap mc1 !! a = Some (Obj_Config c)
    /\ (forall q o, heap mc !! q = Some o -> heap mc1 !! q = Some o)
    /\ heap mc1 = heap mc ++ [Obj_mkcert m1]
    /\ CAROOT_field (embedded m1) = CAROOT P
    /\ (r1, {| self := m1; hist := events mc1 |})
       = Run P args {| self := {| embedded := c |}; hist := events mc |}
    /\ exists r2 mc2 m2,
         Config_Run_at P a args2 mc1 = Some (r2, mc2)
         /\ heap mc2 !! a = Some (Obj_Config c)
         /\ heap mc2 = heap mc ++ [Obj_mkcert m1; Obj_mkcert m2]
         /\ r2 = fst (Run P args2 {| self := {| embedded := c |};
                                     hist := events mc1 |})
         /\ (ignoreCheckFailure c = false ->
             storeEnabled P "system" = true ->
             nonempty (CAROOT P) = true ->
             MkdirAll P (CAROOT P) (events mc1) = None ->
             InstallMode c = true \/ UninstallMode c = false ->
             existsb is_Verify (drop (length (events mc1)) (events mc2))
             = true).
Proof.
  intros Ha.
  pose proof (Config_Run_at_spec P mc a c args Ha) as H1.
  set (s1 := snd (Config_Run P c args (events mc))) in *.
  set (mc1 := {| heap := heap mc ++ [Obj_mkcert (self s1)];
                 events := hist s1 |}) in *.
  assert (Hkeep : forall q o, heap mc !! q = Some o ->
                              heap mc1 !! q = Some o).
  { intros q o Hq. cbn [heap mc1]. rewrite lookup_app_l; [exact Hq|].
    apply lookup_lt_Some in Hq. exact Hq. }
  exists (fst (Config_Run P c args (events mc))), mc1, (self s1).
  split; [exact H1|]. split; [apply Hkeep, Ha|]. split; [exact Hkeep|].
  split; [reflexivity|]. split; [apply Run_resolves_CAROOT|]. split.
  - subst mc1 s1. unfold Config_Run. cbn [events].
    destruct (Run P args _) as [r [m hh]]. reflexivity.
  - pose proof (Config_Run_at_spec P mc1 a c args2 (Hkeep _ _ Ha)) as H2.
    set (s2 := snd (Config_Run P c args2 (events mc1))) in *.
    exists (fst (Config_Run P c args2 (events mc1))),
      {| heap := heap mc1 ++ [Obj_mkcert (self s2)]; events := hist s2 |},
      (self s2).
    split; [exact H2|]. split.
    { cbn [heap]. rewrite lookup_app_l; [apply Hkeep, Ha|].
      eapply lookup_lt_Some, Hkeep, Ha. }
    split; [cbn [heap mc1]; rewrite <- app_assoc; reflexivity|].
    split; [reflexivity|].
    intros Hf Hsys Hroot Hmk Hmode. cbn [events mc1].
    apply (Run_verifies P c args2 (hist s1)); assumption.
Qed.

Lemma Config_Run_keeps_caller_witness :
  let c := config true false EmptyString in
  let mc := {| heap := [Obj_Config c]; events := [] |} in
  exists r1 mc1 m1,
    Config_Run_at demo 0 [] mc = Some (r1, mc1)
    /\ heap mc1 = [Obj_Config c; Obj_mkcert m1]
    /\ (ignoreCheckFailure c = false /\ CAROOT_field c = EmptyString)
    /\ (ignoreCheckFailure (embedded m1) = true
        /\ CAROOT_field (embedded m1) = "/home/dev/ca")
    /\ exists r2 mc2 m2,
         Config_Run_at demo 0 ["example.org"] mc1 = Some (r2, mc2)
         /\ heap mc2 = [Obj_Config c; Obj_mkcert m1; Obj_mkcert m2]
         /\ existsb is_Verify (drop (length (events mc1)) (events mc2)) = true.
Proof.
  cbn zeta.
  destruct (Config_Run_keeps_caller demo
              {| heap := [Obj_Config (config true false EmptyString)];
                 events := [] |} 0 (config true false EmptyString)
              [] ["example.org"] eq_refl)
    as (r1 & mc1 & m1 & H1 & _ & _ & Hheap & Hroot & _ & Hsecond).
  destruct Hsecond as (r2 & mc2 & m2 & H2 & _ & Hheap2 & _ & Hver).
  exists r1, mc1, m1. split; [exact H1|]. split; [exact Hheap|].
  split; [split; reflexivity|].
  assert (Hm1 : ignoreCheckFailure (embedded m1) = true).
  { clear - H1 Hheap. vm_compute in H1. injection H1 as _ <-.
    cbn [heap] in Hheap. injection Hheap as <-. reflexivity. }
  split; [split; [exact Hm1 | exact Hroot]|].
  exists r2, mc2, m2. split; [exact H2|]. split; [exact Hheap2|].
  apply Hver; first [reflexivity | left; reflexivity].
Defined.

(** Called on the address of an object, [Run] does write that object. *)
Example Run_at_writes_receiver :
  exists r m,
    Run_at demo 0 []
      {| heap := [Obj_mkcert {| embedded := config true false EmptyString |}];
         events := [] |}
    = Some (r, {| heap := [Obj_mkcert m];
                  events := hist (snd (Config_Run demo
                                         (config true false EmptyString)
                                         [] [])) |})
    /\ ignoreCheckFailure (embedded m) = true
    /\ CAROOT_field (embedded m) = "/home/dev/ca".
Proof. eexists. eexists. split; [reflexivity | split; reflexivity]. Qed.

(** * Further properties of the code *)

(** ** [CAROOT] and the start of [Run] *)

(** X1: [CAROOT()] is empty exactly when the [CAROOT] variable is not set, the
    system is not Windows, and neither [XDG_DATA_HOME] nor [HOME] is set;
    [filepath.Join] is only asked to return a non-empty path when one of its
    elements is not empty. *)
Theorem CAROOT_empty_iff (P : Platform) :
  (forall parts, existsb nonempty parts = true ->
                 nonempty (Join P parts) = true) ->
  nonempty (CAROOT P) = false
  <-> nonempty (Getenv P "CAROOT") = false
      /\ String.eqb (GOOS P) "windows" = false
      /\ nonempty (Getenv P "XDG_DATA_HOME") = false
      /\ nonempty (Getenv P "HOME") = false.
Proof.
  intros HJ.
  assert (Hm : forall dir, nonempty (Join P [dir; "mkcert"]) = true).
  { intros dir. apply HJ. cbn. apply orb_true_r. }
  unfold CAROOT.
  destruct (nonempty (Getenv P "CAROOT")) eqn:Eenv.
  - rewrite Eenv. split; [discriminate | intros [H _]; discriminate H].
  - destruct (String.eqb (GOOS P) "windows") eqn:Ew.
    + rewrite Hm. split; [discriminate | intros (_ & H & _); discriminate H].
    + destruct (nonempty (Getenv P "XDG_DATA_HOME")) eqn:Ex.
      * rewrite Hm.
        split; [discriminate | intros (_ & _ & H & _); discriminate H].
      * destruct (String.eqb (GOOS P) "darwin");
          destruct (nonempty (Getenv P "HOME")) eqn:Eh; cbn [negb];
          try rewrite Hm;
          (split; [try discriminate; intros _; repeat split
                  | try reflexivity; intros (_ & _ & _ & H); discriminate H]).
Qed.

Lemma demo_Join_nonempty (parts : list string) :
  existsb nonempty parts = true -> nonempty (demo_Join parts) = true.
Proof.
  destruct parts as [|p rest]; [discriminate|]. cbn [demo_Join existsb].
  assert (H : forall rest acc,
             nonempty acc || existsb nonempty rest = true ->
             nonempty (fold_left (fun a q => a +:+ "/" +:+ q) rest acc) = true).
  { clear. induction rest as [|q rest IH]; intros acc H.
    - cbn in *. rewrite orb_false_r in H. exact H.
    - cbn [fold_left]. apply IH. destruct acc; reflexivity. }
  apply H.
Qed.

Lemma CAROOT_empty_iff_witness :
  nonempty (CAROOT demo) = false
  <-> nonempty (Getenv demo "CAROOT") = false
      /\ String.eqb (GOOS demo) "windows" = false
      /\ nonempty (Getenv demo "XDG_DATA_HOME") = false
      /\ nonempty (Getenv demo "HOME") = false.
Proof. apply (CAROOT_empty_iff demo), demo_Join_nonempty. Defined.

(** X2: without a CA location [Run] fails with its error before anything
    happens, in every mode: no event, and the arguments as they were.  With
    one, the first thing [Run] does is to create that directory, and when
    this fails it returns the wrapped error without loading the CA. *)
Theorem Run_fails_fast (P : Platform) (c : Config) (args : list string)
    (h : list Event) :
  let r := Config_Run P c args h in
  (nonempty (CAROOT P) = false ->
   fst r = (args, Some "ERROR: failed to find the default CA location, set one as the CAROOT env var")
   /\ hist (snd r) = h)
  /\ (nonempty (CAROOT P) = true ->
      forall err, MkdirAll P (CAROOT P) h = Some err ->
      fst r = (args, Some ("ERROR: failed to create the CAROOT: " +:+ err))
      /\ hist (snd r) = h ++ [Ev_MkdirAll (CAROOT P)]).
Proof.
  cbn zeta. destruct c.
  unfold Config_Run, Run, bind, modify, get, call, ret, with_CAROOT, fatalIfErr.
  reduce_run. split.
  - intros ->. split; reflexivity.
  - intros H1 err H2. rewrite H1. reduce_run. rewrite H2. split; reflexivity.
Qed.

Lemma Run_fails_fast_witness :
  (let r := Config_Run (scenario (fun _ => EmptyString) None false None None)
              (config true false EmptyString) ["example.org"] [] in
   fst r = (["example.org"],
            Some "ERROR: failed to find the default CA location, set one as the CAROOT env var")
   /\ hist (snd r) = [])
  /\ (let r := Config_Run
                 (scenario demo_Getenv (Some "mkdir /home/dev/ca: permission denied")
                    false None None)
                 (config true false EmptyString) ["example.org"] [] in
      fst r = (["example.org"],
               Some "ERROR: failed to create the CAROOT: mkdir /home/dev/ca: permission denied")
      /\ hist (snd r) = [Ev_MkdirAll "/home/dev/ca"]).
Proof.
  split.
  - apply (Run_fails_fast (scenario (fun _ => EmptyString) None false None None)
             (config true false EmptyString) ["example.org"] []).
    reflexivity.
  - apply (Run_fails_fast
             (scenario demo_Getenv (Some "mkdir /home/dev/ca: permission denied")
                false None None)
             (config true false EmptyString) ["example.org"] []);
      reflexivity.
Defined.

(** ** [storeEnabled] *)

Lemma split_on_free (sep : ascii) (a : string) :
  free_of sep a = true -> split_on sep a = [a].
Proof.
  unfold free_of. induction a as [|c a IH]; cbn [forall_bytes split_on].
  - reflexivity.
  - intros H. apply andb_true_iff in H as [Hc Ha].
    apply negb_true_iff in Hc. rewrite Hc, (IH Ha). reflexivity.
Qed.

Lemma split_on_field (sep : ascii) (a b : string) :
  free_of sep a = true ->
  split_on sep (a +:+ String sep b) = a :: split_on sep b.
Proof.
  unfold free_of. induction a as [|c a IH]; cbn [forall_bytes]; intros H.
  - change (EmptyString +:+ String sep b) with (String sep b).
    cbn [split_on]. rewrite Ascii.eqb_refl. reflexivity.
  - apply andb_true_iff in H as [Hc Ha]. apply negb_true_iff in Hc.
    change (String c a +:+ String sep b) with (String c (a +:+ String sep b)).
    cbn [split_on]. rewrite Hc, (IH Ha). reflexivity.
Qed.

(** Splitting what was joined gives the fields back. *)
Lemma split_on_join (sep : ascii) (names : list string) :
  names <> [] ->
  forallb (free_of sep) names = true ->
  split_on sep (join_with sep names) = names.
Proof.
  induction names as [|a names IH]; [congruence|]. intros _ H.
  cbn [forallb] in H. apply andb_true_iff in H as [Ha Hn].
  destruct names as [|b names].
  - apply split_on_free, Ha.
  - change (join_with sep (a :: b :: names))
      with (a +:+ String sep (join_with sep (b :: names))).
    rewrite (split_on_field _ _ _ Ha), IH; [reflexivity | discriminate | exact Hn].
Qed.

(** X3: without [TRUST_STORES] every store is enabled.  With [TRUST_STORES] set
    to names joined by commas, a store is enabled exactly when its name is
    one of them, byte for byte. *)
Theorem storeEnabled_fields (P : Platform) :
  (nonempty (Getenv P "TRUST_STORES") = false ->
   forall name, storeEnabled P name = true)
  /\ (forall names : list string,
        names <> [] ->
        forallb (free_of ",") names = true ->
        Getenv P "TRUST_STORES" = join_with "," names ->
        nonempty (join_with "," names) = true ->
        forall name, storeEnabled P name = true <-> In name names).
Proof.
  unfold storeEnabled. split.
  - intros H name. rewrite H. reflexivity.
  - intros names Hne Hfree Henv Hset name. rewrite Henv, Hset. cbn [negb].
    rewrite (split_on_join _ _ Hne Hfree), existsb_exists. split.
    + intros (x & Hin & Hx). apply String.eqb_eq in Hx. subst. exact Hin.
    + intros Hin. exists name. split; [exact Hin | apply String.eqb_refl].
Qed.

Lemma storeEnabled_fields_witness :
  let P := scenario (env_stores "system,java") None false None None in
  (storeEnabled P "system" = true <-> In "system" ["system"; "java"])
  /\ (storeEnabled P "nss" = true <-> In "nss" ["system"; "java"])
  /\ forall name, storeEnabled demo name = true.
Proof.
  cbn zeta.
  destruct (storeEnabled_fields
              (scenario (env_stores "system,java") None false None None))
    as [_ H].
  destruct (storeEnabled_fields demo) as [H0 _].
  split; [apply (H ["system"; "java"]); first [discriminate | reflexivity]|].
  split; [apply (H ["system"; "java"]); first [discriminate | reflexivity]|].
  apply H0. reflexivity.
Defined.

(** ** The default mode *)

(** X4: the trust checks of the default mode only probe and log: the receiver
    is left as it was, no store is changed and nothing is issued; and the
    hint to run [mkcert -install] is logged exactly when a note about some
    store is. *)
Theorem check_stores_only_probes (P : Platform) (s : State) :
  self (snd (check_stores P s)) = self s
  /\ exists new,
       hist (snd (check_stores P s)) = hist s ++ new
       /\ forallb (fun e => is_probe e || is_store_line e || is_plain_line e)
            new = true
       /\ existsb is_plain_line new = existsb is_store_line new.
Proof.
  open_state s. destruct (check_stores P _) as [u s'] eqn:E. cbn [snd].
  exec E; (split; [reflexivity|]);
    first [ eexists; split; [reflexivity | split; reflexivity]
          | exists []; split; [symmetry; apply app_nil_r | split; reflexivity] ].
Qed.

(** ** [install] *)

(** X5: [install] changes a store only directly after it has probed that store;
    it never removes the CA from a store and never issues a certificate. *)
Theorem install_probes_first (P : Platform) (s : State) :
  exists new,
    hist (snd (install P s)) = hist s ++ new
    /\ probed_first None new = true
    /\ forallb (fun e => negb (is_uninstall e) && negb (is_issue e)) new = true.
Proof.
  open_state s. destruct (install P _) as [u s'] eqn:E. cbn [snd].
  exec E; (eexists; split; [reflexivity | split; reflexivity]).
Qed.

(** X6: when every store already trusts the CA, [install] changes no store,
    returns no error and leaves the receiver as it was. *)
Theorem install_idempotent (P : Platform) (s : State) :
  (forall cert h, Verify P cert h = true) ->
  (forall h, checkNSS P h = true) ->
  (forall h, checkJava P h = true) ->
  fst (install P s) = None
  /\ self (snd (install P s)) = self s
  /\ exists new,
       hist (snd (install P s)) = hist s ++ new
       /\ forallb (fun e => negb (is_install e)) new = true.
Proof.
  intros HV HN HJ. open_state s.
  destruct (install P _) as [u s'] eqn:E. cbn [fst snd].
  exec E;
    try match goal with
        | H : Verify P _ _ = false |- _ => rewrite HV in H; discriminate H
        | H : checkNSS P _ = false |- _ => rewrite HN in H; discriminate H
        | H : checkJava P _ = false |- _ => rewrite HJ in H; discriminate H
        end;
    (split; [reflexivity|]); (split; [reflexivity|]);
    (eexists; split; reflexivity).
Qed.

Lemma install_idempotent_witness :
  let P := scenario demo_Getenv None true None None in
  let s := start (config true false EmptyString) in
  fst (install P s) = None
  /\ self (snd (install P s)) = self s
  /\ exists new,
       hist (snd (install P s)) = hist s ++ new
       /\ forallb (fun e => negb (is_install e)) new = true.
Proof.
  apply (install_idempotent (scenario demo_Getenv None true None None));
    reflexivity.
Defined.

(** X7: when the installation into the system store fails, [install] returns
    that error at once: the flag is not set, the NSS and Java stores are
    neither probed nor changed, and nothing is logged. *)
Theorem install_system_failure (P : Platform) (s : State) (e : string) :
  storeEnabled P "system" = true ->
  flag s = false ->
  Verify P (caCert (embedded (self s))) (hist s) = false ->
  installPlatform P (hist s ++ [Ev_Verify]) = Some e ->
  install P s
  = (Some e, {| self := self s;
                hist := hist s ++ [Ev_Verify; Ev_installPlatform] |}).
Proof.
  open_state s. intros Hsys -> Hver Hinst.
  unfold install, install_system, checkPlatform, bind, get, call, ret.
  reduce_run. rewrite Hsys. reduce_run. rewrite Hver. reduce_run.
  rewrite Hinst. rewrite <- app_assoc. reflexivity.
Qed.

Lemma install_system_failure_witness :
  install (scenario demo_Getenv None false (Some "exit status 1") None)
    (start (config true false EmptyString))
  = (Some "exit status 1",
     {| self := {| embedded := config true false EmptyString |};
        hist := [Ev_Verify; Ev_installPlatform] |}).
Proof.
  apply (install_system_failure
           (scenario demo_Getenv None false (Some "exit status 1") None)
           (start (config true false EmptyString)));
    reflexivity.
Defined.

(** X8: [install] changes nothing of the receiver but the flag, and the flag is
    set afterwards exactly when it was set before or the installation into
    the system store was called and [install] returned no error. *)
Theorem install_sets_flag_iff (P : Platform) (s : State) :
  let r := install P s in
  embedded (self (snd r))
  = with_ignoreCheckFailure (flag (snd r)) (embedded (self s))
  /\ flag (snd r)
     = flag s
       || (existsb (fun e => match e with
                             | Ev_installPlatform => true
                             | _ => false
                             end) (events_since (hist s) (snd r))
           && match fst r with None => true | Some _ => false end).
Proof.
  cbn zeta. open_state s. unfold events_since. cbn [hist].
  destruct (install P _) as [u s'] eqn:E. cbn [fst snd].
  exec E; rewrite ?drop_app_length;
    try match goal with
        | |- context [drop (length ?l) ?l] =>
            replace (drop (length l) l) with (@nil Event)
              by (symmetry; apply drop_all)
        end;
    cbn [existsb andb orb]; rewrite ?orb_false_r;
    (split; reflexivity).
Qed.

(** ** [uninstall] *)

(** X9: [uninstall] leaves the receiver as it was, and it returns an error
    exactly when the removal from the system store is the last thing it did:
    after a failed removal nothing is logged. *)
Theorem uninstall_error_last (P : Platform) (s : State) :
  let r := uninstall P s in
  self (snd r) = self s
  /\ exists new,
       hist (snd r) = hist s ++ new
       /\ match fst r with
          | Some _ => last new = Some Ev_uninstallPlatform
          | None => last new <> Some Ev_uninstallPlatform
          end.
Proof.
  cbn zeta. open_state s. destruct (uninstall P _) as [u s'] eqn:E.
  cbn [fst snd].
  exec E; (split; [reflexivity|]);
    first [ eexists; split; [reflexivity | first [reflexivity | discriminate]]
          | exists []; split;
            [symmetry; apply app_nil_r | first [reflexivity | discriminate]] ].
Qed.

(** ** [Run] after the mode *)

(** X10: with a CSR path, [Run] neither validates nor changes the arguments and
    never calls [makeCert], in every mode; once the CAROOT directory
    exists it returns no error. *)
Theorem Run_csr_ignores_args (P : Platform) (c : Config)
    (args : list string) (h : list Event) :
  nonempty (CSRPath c) = true ->
  let r := Config_Run P c args h in
  fst (fst r) = args
  /\ (exists new, hist (snd r) = h ++ new
                  /\ forallb (fun e => negb (is_makeCert e)) new = true)
  /\ (nonempty (CAROOT P) = true -> MkdirAll P (CAROOT P) h = None ->
      snd (fst r) = None).
Proof.
  intros Hc. cbn zeta. destruct c. cbn in Hc. subst.
  destruct (Config_Run P _ args h) as [[a e] s'] eqn:E. cbn [fst snd].
  exec E; try discriminate;
    (split; [reflexivity|]);
    (split;
     [ first [ eexists; split; [reflexivity | reflexivity]
             | exists []; split; [symmetry; apply app_nil_r | reflexivity] ]
     | intros; first [reflexivity | discriminate | congruence] ]).
Qed.

Lemma Run_csr_ignores_args_witness :
  let r := Config_Run demo (config false false "req.csr") ["not a hostname"] [] in
  fst r = (["not a hostname"], None)
  /\ exists new, hist (snd r) = [] ++ new
                 /\ forallb (fun e => negb (is_makeCert e)) new = true.
Proof.
  destruct (Run_csr_ignores_args demo (config false false "req.csr")
              ["not a hostname"] [] eq_refl) as (H1 & H2 & H3).
  cbn zeta in *. split; [|exact H2].
  specialize (H3 eq_refl eq_refl).
  destruct (Config_Run demo _ _ _) as [[a e] s]. cbn [fst snd] in *.
  subst. reflexivity.
Defined.

(** X11: in the default mode [Run] changes no trust store: it neither installs
    the CA anywhere nor removes it. *)
Theorem default_mode_changes_no_store (P : Platform) (c : Config)
    (args : list string) (h : list Event) :
  InstallMode c = false ->
  UninstallMode c = false ->
  exists new,
    hist (snd (Config_Run P c args h)) = h ++ new
    /\ forallb (fun e => negb (is_install e) && negb (is_uninstall e)) new
       = true.
Proof.
  intros Hi Hu. destruct c. cbn in Hi, Hu. subst.
  destruct (Config_Run P _ args h) as [r s'] eqn:E. cbn [snd].
  exec E;
    first [ eexists; split; [reflexivity | reflexivity]
          | exists []; split; [symmetry; apply app_nil_r | reflexivity] ].
Qed.

Lemma default_mode_changes_no_store_witness :
  exists new,
    hist (snd (Config_Run demo (config false false EmptyString)
                 ["example.org"] []))
    = [] ++ new
    /\ forallb (fun e => negb (is_install e) && negb (is_uninstall e)) new
       = true.
Proof.
  apply (default_mode_changes_no_store demo (config false false EmptyString));
    reflexivity.
Defined.

(** X12: when [Run] comes to the loop and every argument is valid, it calls
    [makeCert] once, as the last thing it does, on the normalized arguments,
    and returns what that call returns together with the normalized
    arguments; nothing else is issued in the run. *)
Theorem Run_issues_normalized (P : Platform) (c : Config)
    (args : list string) (h : list Event) :
  reaches_loop P c args h ->
  Forall (valid_subject P) args ->
  let r := Config_Run P c args h in
  exists new,
    forallb (fun e => negb (is_issue e)) new = true
    /\ hist (snd r) = h ++ new ++ [Ev_makeCert (map (normalized P) args)]
    /\ fst r = (map (normalized P) args,
                makeCert P (map (normalized P) args) (h ++ new)).
Proof.
  intros Hr Hv. cbn zeta.
  assert (Hck : check_args P args = (map (normalized P) args, None))
    by apply (range_args_valid P args [] Hv).
  destruct (Run_reaches_loop P c args h Hr) as (new & Hnew & Hrun).
  rewrite Hck in Hrun. destruct Hrun as [H1 H2].
  exists new. split; [exact Hnew|]. split; [exact H2 | exact H1].
Qed.

Lemma Run_issues_normalized_witness :
  let r := Config_Run demo (config false false EmptyString)
             ["bücher.example"; "127.0.0.1"] [] in
  exists new,
    forallb (fun e => negb (is_issue e)) new = true
    /\ hist (snd r)
       = [] ++ new ++ [Ev_makeCert ["xn--bcher-kva.example"; "127.0.0.1"]]
    /\ fst r = (["xn--bcher-kva.example"; "127.0.0.1"],
                makeCert demo ["xn--bcher-kva.example"; "127.0.0.1"]
                  ([] ++ new)).
Proof.
  apply (Run_issues_normalized demo (config false false EmptyString)
           ["bücher.example"; "127.0.0.1"] []).
  - repeat split; reflexivity.
  - repeat constructor; eexists; reflexivity.
Defined.

(** ** The front end *)

(** X13: [mkcert -install] without arguments exits with status 0 as soon as the
    CAROOT directory exists: [Run] drops the error of [install], so a failed
    installation into the system store is not reported. *)
Theorem main_install_exit_zero (P : Platform) (f : Flags) :
  helpFlag f = false -> versionFlag f = false -> carootFlag f = false ->
  installFlag f = true -> uninstallFlag f = false ->
  nonempty (csrFlag f) = false ->
  nonempty (CAROOT P) = true -> MkdirAll P (CAROOT P) [] = None ->
  snd (main P f []) = 0
  /\ forallb (fun e => match e with
                       | Log None (String _ _) => false
                       | _ => true
                       end) (fst (main P f [])) = true.
Proof.
  intros Hh Hv Hc Hi Hu Hcsr Hroot Hmk.
  destruct f as [fi fu fp fe fc fh fca fcsr fcert fkey fp12 fv].
  cbn in Hh, Hv, Hc, Hi, Hu, Hcsr; subst.
  unfold main.
  cbn [helpFlag versionFlag carootFlag installFlag uninstallFlag csrFlag
       pkcs12Flag ecdsaFlag clientFlag certFileFlag keyFileFlag p12FileFlag].
  rewrite Hcsr. reduce_run.
  destruct (Config_Run P _ [] []) as [[a e] s'] eqn:E.
  unfold Config_Run, Run, bind, modify, get, call, with_CAROOT in E.
  reduce_run. rewrite Hroot in E. reduce_run. rewrite Hmk in E.
  exec E; (split; reflexivity).
Qed.

Lemma main_install_exit_zero_witness :
  main (scenario demo_Getenv None false (Some "exit status 1") None)
    (flags true false false false EmptyString) []
  = ([Ev_MkdirAll "/home/dev/ca"; Ev_loadCA; Ev_Verify; Ev_installPlatform], 0).
Proof.
  pose proof (main_install_exit_zero
                (scenario demo_Getenv None false (Some "exit status 1") None)
                (flags true false false false EmptyString)
                eq_refl eq_refl eq_refl eq_refl eq_refl eq_refl eq_refl eq_refl)
    as [H _].
  destruct (main _ _ _) as [evs code] eqn:E. cbn [snd] in H. subst code.
  vm_compute in E. injection E as <-. reflexivity.
Defined.

(** X14: with [-help], [-version] or [-CAROOT] the front end only prints: [Run]
    is not called and nothing is created.  The exit status is 1 only for
    [-CAROOT] together with [-install] or [-uninstall], when neither [-help]
    nor [-version] is given. *)
Theorem main_query_flags (P : Platform) (f : Flags) (args : list string) :
  helpFlag f || versionFlag f || carootFlag f = true ->
  forallb is_output (fst (main P f args)) = true
  /\ (snd (main P f args) = 1
      <-> helpFlag f = false /\ versionFlag f = false
          /\ installFlag f || uninstallFlag f = true).
Proof.
  unfold main.
  destruct f as [fi fu fp fe fc fh fca fcsr fcert fkey fp12 fv].
  cbn [helpFlag versionFlag carootFlag installFlag uninstallFlag csrFlag
       pkcs12Flag ecdsaFlag clientFlag certFileFlag keyFileFlag p12FileFlag].
  destruct fh, fv, fca; cbn [orb]; intros H;
    try discriminate H;
    try (destruct (nonempty (Version P)); [|destruct (ReadBuildInfo P)]);
    try (destruct fi, fu; cbn [orb]);
    (split; [reflexivity|]);
    (split; [intros H1; try discriminate H1; repeat split
            | intros (H1 & H2 & H3); first [discriminate | reflexivity]]).
Qed.

Lemma main_query_flags_witness :
  forallb is_output
    (fst (main demo (flags true false false true EmptyString) [])) = true
  /\ snd (main demo (flags true false false true EmptyString) []) = 1.
Proof.
  destruct (main_query_flags demo (flags true false false true EmptyString) []
              eq_refl) as [H1 H2].
  split; [exact H1|]. apply H2. repeat split.
Defined.

(** ** The classification loop on any arguments *)

Lemma first_invalid (P : Platform) (args : list string) :
  Forall (valid_subject P) args
  \/ exists pre x post e,
       args = pre ++ x :: post
       /\ Forall (valid_subject P) pre /\ spec_classify P x = inr e.
Proof.
  induction args as [|a args IH]; [left; constructor|].
  destruct (spec_classify P a) as [sub | e] eqn:Ea.
  - destruct IH as [IH | (pre & x & post & e & -> & Hpre & Hx)].
    + left. constructor; [exists sub; exact Ea | exact IH].
    + right. exists (a :: pre), x, post, e. repeat split.
      * constructor; [exists sub; exact Ea | exact Hpre].
      * exact Hx.
  - right. exists [], a, args, e. repeat split; [constructor | exact Ea].
Qed.

Lemma normalized_kept_or_converted (P : Platform) (x : string) :
  kept_or_converted P x (normalized P x).
Proof.
  unfold kept_or_converted, normalized, spec_classify.
  destruct (ParseIP P x); [split; auto|].
  destruct (is_email P x); [split; auto|].
  destruct (is_uri P x); [split; auto|].
  destruct (ToASCII P x) as [p | err]; [|split; [auto | discriminate]].
  destruct (MatchString hostnameRegexp p); split; auto; discriminate.
Qed.

(** X15: whatever the arguments, valid or not, the loop keeps their number and
    leaves in every place the argument itself or its conversion to ASCII; an
    IP literal, an email address and a URI are never changed. *)
Theorem check_args_entrywise (P : Platform) (args : list string) :
  Forall2 (kept_or_converted P) args (fst (check_args P args)).
Proof.
  destruct (first_invalid P args)
    as [Hv | (pre & x & post & e & -> & Hpre & Hx)].
  - assert (H : check_args P args = (map (normalized P) args, None))
      by apply (range_args_valid P args [] Hv).
    rewrite H. cbn [fst]. clear.
    induction args as [|a args IH]; constructor;
      [apply normalized_kept_or_converted | exact IH].
  - assert (H : check_args P (pre ++ x :: post)
                = (map (normalized P) pre ++ attempted P x :: post, Some e))
      by apply (range_args_invalid P pre x post [] e Hpre Hx).
    rewrite H. cbn [fst]. clear H.
    apply Forall2_app.
    + clear. induction pre as [|a pre IH]; constructor;
        [apply normalized_kept_or_converted | exact IH].
    + constructor.
      * unfold kept_or_converted, attempted. revert Hx. unfold spec_classify.
        destruct (ParseIP P x); [discriminate|].
        destruct (is_email P x); [discriminate|].
        destruct (is_uri P x); [discriminate|].
        destruct (ToASCII P x) as [p | err]; split; auto; discriminate.
      * clear. induction post as [|a post IH]; constructor; [|exact IH].
        split; auto.
Qed.

(** ** The gate on an empty command *)

(** X16: on an empty command the gate panics (index out of range) as the
    superuser and without [sudo], in the latter case after the warning;
    with [sudo] it does not panic and returns [sudo] with the prompt and the
    separator alone. *)
Theorem gate_empty_command (pv : Privilege) (s : Process) :
  (fst (commandWithSudo pv [] s) = None
   <-> is_root pv = true \/ sudo_exists pv = false)
  /\ (is_root pv = false -> sudo_exists pv = true ->
      commandWithSudo pv [] s
      = (Some {| Name := "sudo"; Args := ["--prompt=Sudo password:"; "--"] |},
         s))
  /\ (is_root pv = false -> sudo_exists pv = false ->
      snd (commandWithSudo pv [] s) = Once_Do sudoWarning s).
Proof.
  unfold commandWithSudo.
  destruct (is_root pv), (sudo_exists pv); cbn [negb fst snd Command_of app];
    (split; [split; [intros H; try discriminate H; auto
                    | intros [H | H]; first [discriminate H | reflexivity]]
            | split; intros H1 H2; first [discriminate | reflexivity]]).
Qed.

Lemma gate_empty_command_witness :
  commandWithSudo {| Current_Uid := Some "1000"; sudo_exists := true |} []
    fresh_process
  = (Some {| Name := "sudo"; Args := ["--prompt=Sudo password:"; "--"] |},
     fresh_process)
  /\ snd (commandWithSudo {| Current_Uid := None; sudo_exists := false |} []
            fresh_process)
     = {| sudoWarningOnce := true; output := [Log None sudoWarning] |}.
Proof.
  split.
  - apply (gate_empty_command
             {| Current_Uid := Some "1000"; sudo_exists := true |}
             fresh_process); reflexivity.
  - apply (gate_empty_command {| Current_Uid := None; sudo_exists := false |}
             fresh_process); reflexivity.
Defined.

(** ** The pattern and the case of letters *)

Lemma to_lower_byte_classes (c : ascii) :
  label_byte (to_lower_byte c) = label_byte c
  /\ dot_byte (to_lower_byte c) = dot_byte c
  /\ in_range 42 42 (to_lower_byte c) = in_range 42 42 c
  /\ in_range 0 127 (to_lower_byte c) = in_range 0 127 c.
Proof.
  destruct c as [[] [] [] [] [] [] [] []]; repeat split; reflexivity.
Qed.

Lemma forall_bytes_to_lower (p : ascii -> bool) (s : string) :
  (forall c, p (to_lower_byte c) = p c) ->
  forall_bytes p (to_lower s) = forall_bytes p s.
Proof.
  intros Hp. induction s as [|c s IH]; cbn [to_lower forall_bytes];
    [reflexivity | rewrite Hp, IH; reflexivity].
Qed.

Lemma last_byte_to_lower (s : string) :
  is_label_byte (last_byte (to_lower s)) = is_label_byte (last_byte s).
Proof.
  induction s as [|c s IH]; [reflexivity|].
  destruct s as [|c' s']; cbn [to_lower last_byte is_label_byte] in *.
  - apply to_lower_byte_classes.
  - exact IH.
Qed.

Lemma strip_wildcard_to_lower (s : string) :
  strip_wildcard (to_lower s) = to_lower (strip_wildcard s).
Proof.
  destruct s as [|c1 [|c2 rest]]; try reflexivity.
  cbn [to_lower strip_wildcard].
  destruct (to_lower_byte_classes c1) as (_ & _ & -> & _).
  destruct (to_lower_byte_classes c2) as (_ & -> & _).
  destruct (in_range 42 42 c1 && dot_byte c2); reflexivity.
Qed.

Lemma first_byte_to_lower (s : string) :
  is_label_byte (first_byte (to_lower s)) = is_label_byte (first_byte s).
Proof.
  destruct s as [|c s]; [reflexivity|].
  cbn [to_lower first_byte is_label_byte]. apply to_lower_byte_classes.
Qed.

Lemma hostname_shape_to_lower (s : string) :
  hostname_shape (to_lower s) = hostname_shape s.
Proof.
  unfold hostname_shape, body_shape. rewrite strip_wildcard_to_lower.
  rewrite last_byte_to_lower, first_byte_to_lower.
  rewrite (forall_bytes_to_lower label_or_dot); [reflexivity|].
  intros c. unfold label_or_dot.
  destruct (to_lower_byte_classes c) as (-> & -> & _). reflexivity.
Qed.

(** X17: the pattern does not see the case of ASCII letters: two ASCII strings
    that are equal once in lower case are both accepted or both rejected. *)
Theorem hostname_case_insensitive (s t : string) :
  is_ascii s = true -> is_ascii t = true ->
  to_lower s = to_lower t ->
  MatchString hostnameRegexp s = MatchString hostnameRegexp t.
Proof.
  intros Hs Ht E.
  rewrite (hostnameRegexp_shape _ Hs), (hostnameRegexp_shape _ Ht).
  rewrite <- (hostname_shape_to_lower s), <- (hostname_shape_to_lower t), E.
  reflexivity.
Qed.

Lemma hostname_case_insensitive_witness :
  MatchString hostnameRegexp "*.Example.ORG"
  = MatchString hostnameRegexp "*.eXAMPLE.org".
Proof. apply hostname_case_insensitive; reflexivity. Defined.

(** ** Classifying the classified arguments again *)

Lemma normalized_cases (P : Platform) (x : string) :
  valid_subject P x ->
  (ParseIP P x || is_email P x || is_uri P x = true /\ normalized P x = x)
  \/ (exists p, ToASCII P x = inl p
                /\ MatchString hostnameRegexp p = true
                /\ normalized P x = p).
Proof.
  intros [sub Hx]. revert Hx. unfold normalized, spec_classify.
  destruct (ParseIP P x); [left; split; reflexivity|].
  destruct (is_email P x); [left; split; reflexivity|].
  destruct (is_uri P x); [left; split; reflexivity|].
  destruct (ToASCII P x) as [p | err]; [|discriminate].
  destruct (MatchString hostnameRegexp p) eqn:Em; [|discriminate].
  intros _. right. exists p. repeat split. exact Em.
Qed.

Lemma classified_fixed (P : Platform) (y : string) :
  ParseIP P y || is_email P y || is_uri P y = true
  \/ (ToASCII P y = inl y /\ MatchString hostnameRegexp y = true) ->
  valid_subject P y /\ normalized P y = y.
Proof.
  unfold valid_subject, normalized, spec_classify.
  destruct (ParseIP P y); [split; eauto|].
  destruct (is_email P y); [split; eauto|].
  destruct (is_uri P y); [split; eauto|].
  intros [H | [Hto Hm]]; [discriminate H|].
  rewrite Hto, Hm. split; eauto.
Qed.

Lemma normalized_fixed (P : Platform) (x : string) :
  (forall y p, ToASCII P y = inl p -> ToASCII P p = inl p) ->
  valid_subject P x ->
  valid_subject P (normalized P x)
  /\ normalized P (normalized P x) = normalized P x.
Proof.
  intros Hid Hx.
  destruct (normalized_cases P x Hx) as [[Hk ->] | (p & Hto & Hm & ->)].
  - apply classified_fixed. left. exact Hk.
  - apply classified_fixed. right. split; [exact (Hid _ _ Hto) | exact Hm].
Qed.

(** X18: when the conversion to ASCII leaves its own results as they are, the
    arguments that passed the loop pass it again and are not changed by
    it. *)
Theorem check_args_idempotent (P : Platform) (args : list string) :
  (forall y p, ToASCII P y = inl p -> ToASCII P p = inl p) ->
  snd (check_args P args) = None ->
  check_args P (fst (check_args P args)) = (fst (check_args P args), None).
Proof.
  intros Hid Hok.
  destruct (first_invalid P args)
    as [Hv | (pre & x & post & e & -> & Hpre & Hx)].
  - assert (H : check_args P args = (map (normalized P) args, None))
      by apply (range_args_valid P args [] Hv).
    rewrite H. cbn [fst].
    assert (Hv2 : Forall (valid_subject P) (map (normalized P) args)
                  /\ map (normalized P) (map (normalized P) args)
                     = map (normalized P) args).
    { clear H Hok. induction Hv as [|a args Ha Hv IH]; [split; constructor|].
      destruct IH as [IH1 IH2].
      destruct (normalized_fixed P a Hid Ha) as [Hva Hna].
      cbn [map]. split; [constructor; assumption|]. rewrite Hna, IH2.
      reflexivity. }
    destruct Hv2 as [Hv2 Hfix].
    assert (H2 : check_args P (map (normalized P) args)
                 = (map (normalized P) (map (normalized P) args), None))
      by apply (range_args_valid P _ [] Hv2).
    rewrite H2, Hfix. reflexivity.
  - assert (H : check_args P (pre ++ x :: post)
                = (map (normalized P) pre ++ attempted P x :: post, Some e))
      by apply (range_args_invalid P pre x post [] e Hpre Hx).
    rewrite H in Hok. discriminate Hok.
Qed.

Lemma demo_ToASCII_fixed (y p : string) :
  ToASCII demo y = inl p -> ToASCII demo p = inl p.
Proof.
  cbn [ToASCII demo]. unfold demo_ToASCII at 1.
  destruct (String.eqb y "bücher.example") eqn:E1.
  - intros [= <-]. reflexivity.
  - destruct (String.eqb y "a b") eqn:E2; [discriminate|].
    intros [= <-]. unfold demo_ToASCII. rewrite E1, E2. reflexivity.
Qed.

Lemma check_args_idempotent_witness :
  check_args demo
    (fst (check_args demo ["bücher.example"; "127.0.0.1"; "*.example.org"]))
  = (fst (check_args demo ["bücher.example"; "127.0.0.1"; "*.example.org"]),
     None).
Proof.
  apply (check_args_idempotent demo); [exact demo_ToASCII_fixed | reflexivity].
Defined.
